(** * Camping-Note: the task-list client of [src/App.jsx]

    A shallow embedding of the React component [App]: its state hooks
    become one record, every asynchronous action is split at its [await]
    into the part that sends the request and the part that runs when the
    backend answers, and the browser's event loop becomes a step function
    over UI events, provider notifications and backend replies. *)

From Stdlib Require Import ZArith NArith Ascii Lia.
From stdpp Require Import base decidable option numbers list strings sorting.

Local Open Scope Z_scope.

(** ** JavaScript strings

    A JavaScript string is a sequence of UTF-16 code units.  [trim] needs
    the code points ECMAScript counts as white space or line terminators;
    all of them lie in the basic plane, so one code unit each. *)

Module JsString.

Definition t := list N.

(** ASCII literals, for readable examples. *)
Fixpoint of_string (s : string) : t :=
  match s with
  | EmptyString => []
  | String c r => Ascii.N_of_ascii c :: of_string r
  end.

(** WhiteSpace and LineTerminator of ECMA-262: TAB, LF, VT, FF, CR, SP,
    NBSP, U+1680, U+2000..U+200A, LS, PS, U+202F, U+205F, U+3000, BOM. *)
Definition is_white_space (c : N) : bool :=
  ((9 <=? c) && (c <=? 13) || (c =? 32) || (c =? 160) || (c =? 5760)
   || (8192 <=? c) && (c <=? 8202) || (c =? 8232) || (c =? 8233)
   || (c =? 8239) || (c =? 8287) || (c =? 12288) || (c =? 65279))%N.

Fixpoint trimStart (s : t) : t :=
  match s with
  | [] => []
  | c :: r => if is_white_space c then trimStart r else s
  end.

Definition trimEnd (s : t) : t := rev (trimStart (rev s)).

(** [String.prototype.trim] *)
Definition trim (s : t) : t := trimEnd (trimStart s).

(** ToBoolean on a string: only the empty string is falsy. *)
Definition truthy (s : t) : bool :=
  match s with [] => false | _ :: _ => true end.

End JsString.

Abbreviation jsstring := JsString.t.
Abbreviation js := JsString.of_string.

(** ** Data model: the rows and objects the component handles *)

Module Task.
(** A row of the [tasks] table as the client receives it. *)
Record t := mk {
  id : Z;
  title : jsstring;
  user_id : jsstring;
  is_completed : bool;
  created_at : Z;
}.

(** [{ ...t, is_completed: v }] *)
Definition with_is_completed (v : bool) (r : t) : t :=
  {| id := id r; title := title r; user_id := user_id r;
     is_completed := v; created_at := created_at r |}.

#[export] Instance eq_dec : EqDecision t.
Proof. solve_decision. Defined.
End Task.

Module User.
Record metadata := mk_metadata {
  avatar_url : option jsstring;
  full_name : option jsstring;
}.
Record t := mk {
  id : jsstring;
  email : option jsstring;
  user_metadata : option metadata;
}.
End User.

Module Session.
(** A session object of the auth provider.  [ref] stands for the
    object's identity: React compares effect dependencies with
    [Object.is], which on objects is identity of reference. *)
Record t := mk {
  ref : nat;
  user : option User.t;
}.
End Session.

(** [session?.user?.id] ([None] is [undefined]) *)
Definition session_user_id (session : option Session.t) : option jsstring :=
  match session with
  | None => None
  | Some se =>
      match Session.user se with
      | None => None
      | Some u => Some (User.id u)
      end
  end.

(** The value of [session?.user?.id] when it is truthy. *)
Definition truthy_user_id (session : option Session.t) : option jsstring :=
  match session_user_id session with
  | Some uid => if JsString.truthy uid then Some uid else None
  | None => None
  end.

(** [Object.is] on two values of the [session] state. *)
Definition Object_is (a b : option Session.t) : bool :=
  match a, b with
  | None, None => true
  | Some x, Some y => Nat.eqb (Session.ref x) (Session.ref y)
  | _, _ => false
  end.

(** ** The backend boundary: what the client sends and what comes back *)

Inductive Value :=
| VNum (z : Z)
| VStr (s : jsstring)
| VBool (b : bool).

#[export] Instance Value_eq_dec : EqDecision Value.
Proof. solve_decision. Defined.

Module Query.
(** The query-builder chains of the source, as data. *)
Inductive t :=
| select (columns : string) (eq : list (string * Value))
         (order : option (string * bool))   (* column, [ascending] *)
| insert_select_single (rows : list (list (string * Value)))
| update (values : list (string * Value)) (eq : list (string * Value))
| delete (eq : list (string * Value)).
End Query.

Inductive Request :=
| auth_getSession
| auth_signInWithOAuth (provider : string)
| auth_signInWithOtp (email : jsstring)
| auth_signOut
| from (table : string) (q : Query.t).

Record Error := mkError { message : jsstring }.

(** What an awaited backend promise settles to. *)
Inductive Reply :=
| session_reply (session : option Session.t) (error : option Error)
                                               (* [{ data: { session }, error }] *)
| error_reply (error : option Error)           (* [{ error }] *)
| rows_reply (data : option (list Task.t)) (error : option Error)
| row_reply (data : option Task.t) (error : option Error)
| rejected (reason : Error).                   (* the promise rejects *)

(** An asynchronous function of the component suspended at its [await]
    (or a [.then] callback waiting for its promise), with the variables
    its continuation closes over. *)
Inductive Pending :=
| getSession_then
| signInWithOAuth_await (provider : string)
| signInWithEmail_await (email : jsstring)
| signOut_await
| fetchTasks_await (userId : jsstring)
| addTask_await (title userId : jsstring)
| toggleTask_await (id : Z) (isCompleted : bool)
| deleteTask_await (id : Z).

(** The request each suspended call has sent. *)
Definition request_of (p : Pending) : Request :=
  match p with
  | getSession_then => auth_getSession
  | signInWithOAuth_await provider => auth_signInWithOAuth provider
  | signInWithEmail_await email => auth_signInWithOtp email
  | signOut_await => auth_signOut
  | fetchTasks_await userId =>
      from "tasks"
        (Query.select "*" [("user_id", VStr userId)]
                      (Some ("created_at", false)))
  | addTask_await title userId =>
      from "tasks"
        (Query.insert_select_single
           [[("title", VStr title); ("user_id", VStr userId)]])
  | toggleTask_await id isCompleted =>
      from "tasks"
        (Query.update [("is_completed", VBool (negb isCompleted))]
                      [("id", VNum id)])
  | deleteTask_await id =>
      from "tasks" (Query.delete [("id", VNum id)])
  end.

(** ** Component state *)

Inductive LogArg :=
| arg_error (e : Error)
| arg_string (s : jsstring).

(** One [console.error(label, arg)] call. *)
Definition LogEntry : Type := string * LogArg.

Record AppState := mkState {
  session : option Session.t;      (* useState(null) *)
  email : jsstring;                (* useState('') *)
  otpSent : bool;                  (* useState(false) *)
  tasks : list Task.t;             (* useState([]) *)
  newTask : jsstring;              (* useState('') *)
  inflight : list Pending;         (* requests sent and not yet answered *)
  console : list LogEntry;         (* console.error calls so far *)
  unhandled : list Error;          (* rejections no handler caught *)
}.

Definition setSessionState (v : option Session.t) (s : AppState) : AppState :=
  mkState v (email s) (otpSent s) (tasks s) (newTask s)
          (inflight s) (console s) (unhandled s).
Definition setEmail (v : jsstring) (s : AppState) : AppState :=
  mkState (session s) v (otpSent s) (tasks s) (newTask s)
          (inflight s) (console s) (unhandled s).
Definition setOtpSent (v : bool) (s : AppState) : AppState :=
  mkState (session s) (email s) v (tasks s) (newTask s)
          (inflight s) (console s) (unhandled s).
Definition setTasks (v : list Task.t) (s : AppState) : AppState :=
  mkState (session s) (email s) (otpSent s) v (newTask s)
          (inflight s) (console s) (unhandled s).
Definition setNewTask (v : jsstring) (s : AppState) : AppState :=
  mkState (session s) (email s) (otpSent s) (tasks s) v
          (inflight s) (console s) (unhandled s).
Definition set_inflight (v : list Pending) (s : AppState) : AppState :=
  mkState (session s) (email s) (otpSent s) (tasks s) (newTask s)
          v (console s) (unhandled s).

(** [console.error(label, arg)] *)
Definition console_error (label : string) (arg : LogArg) (s : AppState)
  : AppState :=
  mkState (session s) (email s) (otpSent s) (tasks s) (newTask s)
          (inflight s) (console s ++ [(label, arg)]) (unhandled s).

(** An awaited promise rejected inside an async function without
    [try]/[catch]: the function's own promise rejects and nobody handles
    it. *)
Definition unhandled_rejection (reason : Error) (s : AppState) : AppState :=
  mkState (session s) (email s) (otpSent s) (tasks s) (newTask s)
          (inflight s) (console s) (unhandled s ++ [reason]).

(** Send a request and suspend until the reply. *)
Definition await (p : Pending) (s : AppState) : AppState :=
  set_inflight (inflight s ++ [p]) s.

(** State of the hooks at the first render. *)
Definition initial : AppState :=
  mkState None [] false [] [] [] [] [].

(** ** CRUD actions (lines 63-118) *)

Definition fetchTasks (userId : jsstring) (s : AppState) : AppState :=
  await (fetchTasks_await userId) s.

(** [if (error) console.error(...) else setTasks(data || [])] *)
Definition fetchTasks_resume (data : option (list Task.t))
    (error : option Error) (s : AppState) : AppState :=
  match error with
  | Some e => console_error "Fetch tasks error:" (arg_error e) s
  | None => setTasks (default [] data) s
  end.

Definition addTask (s : AppState) : AppState :=
  if negb (JsString.truthy (JsString.trim (newTask s))) then s
  else
    match truthy_user_id (session s) with
    | None => s
    | Some userId => await (addTask_await (JsString.trim (newTask s)) userId) s
    end.

(** [if (error) ... else if (data) { setTasks(prev => [data, ...prev]);
    setNewTask('') }] *)
Definition addTask_resume (data : option Task.t) (error : option Error)
    (s : AppState) : AppState :=
  match error with
  | Some e => console_error "Add task error:" (arg_error e) s
  | None =>
      match data with
      | Some d => setNewTask [] (setTasks (d :: tasks s) s)
      | None => s
      end
  end.

Definition toggleTask (id : Z) (isCompleted : bool) (s : AppState)
  : AppState :=
  await (toggleTask_await id isCompleted) s.

(** [prev.map(t => t.id === id ? { ...t, is_completed: !isCompleted } : t)] *)
Definition toggle_in (id : Z) (isCompleted : bool) (prev : list Task.t)
  : list Task.t :=
  map (fun t => if decide (Task.id t = id)
                then Task.with_is_completed (negb isCompleted) t
                else t) prev.

Definition toggleTask_resume (id : Z) (isCompleted : bool)
    (error : option Error) (s : AppState) : AppState :=
  match error with
  | Some e => console_error "Toggle task error:" (arg_error e) s
  | None => setTasks (toggle_in id isCompleted (tasks s)) s
  end.

Definition deleteTask (id : Z) (s : AppState) : AppState :=
  await (deleteTask_await id) s.

(** [prev.filter(t => t.id !== id)] *)
Definition delete_in (id : Z) (prev : list Task.t) : list Task.t :=
  filter (fun t => Task.id t ≠ id) prev.

Definition deleteTask_resume (id : Z) (error : option Error) (s : AppState)
  : AppState :=
  match error with
  | Some e => console_error "Delete task error:" (arg_error e) s
  | None => setTasks (delete_in id (tasks s)) s
  end.

(** ** Auth actions (lines 40-61) *)

Definition signInWithGoogle (s : AppState) : AppState :=
  await (signInWithOAuth_await "google") s.

Definition signInWithFacebook (s : AppState) : AppState :=
  await (signInWithOAuth_await "facebook") s.

Definition signInWithEmail (s : AppState) : AppState :=
  await (signInWithEmail_await (email s)) s.

Definition signInWithEmail_resume (error : option Error) (s : AppState)
  : AppState :=
  match error with
  | Some e =>
      console_error "Error sending magic link:" (arg_string (message e)) s
  | None => setOtpSent true s
  end.

Definition signOut (s : AppState) : AppState := await signOut_await s.

Definition signOut_resume (error : option Error) (s : AppState) : AppState :=
  match error with
  | Some e => console_error "Sign-out error:" (arg_string (message e)) s
  | None => s
  end.

(** ** Auth lifecycle (lines 16-38) *)

(** The effect with dependency [[session]]. *)
Definition session_effect (s : AppState) : AppState :=
  match truthy_user_id (session s) with
  | Some userId => fetchTasks userId s
  | None => setTasks [] s
  end.

(** [setSession(v)] followed by the re-render it causes: React keeps the
    state and skips the render when [Object.is] finds the value unchanged;
    otherwise the effect depending on [session] runs. *)
Definition setSession (v : option Session.t) (s : AppState) : AppState :=
  if Object_is (session s) v then s
  else session_effect (setSessionState v s).

(** Mounting: both effects run once; the first asks for the current
    session, the second finds [session] null and clears the task list. *)
Definition mount : AppState :=
  setTasks [] (await getSession_then initial).

(** ** Settling of a pending call *)

(** The continuation of a suspended call on the value its promise settles
    to.  [None]: the reply has a shape this call's backend operation never
    produces. *)
Definition resume (p : Pending) (r : Reply) (s : AppState)
  : option AppState :=
  match r with
  | rejected reason => Some (unhandled_rejection reason s)
  | _ =>
      match p, r with
      | getSession_then, session_reply se _ => Some (setSession se s)
      | signInWithOAuth_await _, error_reply _ => Some s
      | signInWithEmail_await _, error_reply error =>
          Some (signInWithEmail_resume error s)
      | signOut_await, error_reply error => Some (signOut_resume error s)
      | fetchTasks_await _, rows_reply data error =>
          Some (fetchTasks_resume data error s)
      | addTask_await _ _, row_reply data error =>
          Some (addTask_resume data error s)
      | toggleTask_await id isCompleted, error_reply error =>
          Some (toggleTask_resume id isCompleted error s)
      | deleteTask_await id, error_reply error =>
          Some (deleteTask_resume id error s)
      | _, _ => None
      end
  end.

(** The shape of reply the backend operation behind a call produces. *)
Definition expects (p : Pending) (r : Reply) : bool :=
  match p, r with
  | _, rejected _ => true
  | getSession_then, session_reply _ _ => true
  | fetchTasks_await _, rows_reply _ _ => true
  | addTask_await _ _, row_reply _ _ => true
  | ( signInWithOAuth_await _ | signInWithEmail_await _ | signOut_await
    | toggleTask_await _ _ | deleteTask_await _ ), error_reply _ => true
  | _, _ => false
  end.

(** The [error] member of a reply. *)
Definition reply_error (r : Reply) : option Error :=
  match r with
  | session_reply _ error | error_reply error
  | rows_reply _ error | row_reply _ error => error
  | rejected _ => None
  end.

(** The four operations of the task store client. *)
Definition task_operation (p : Pending) : bool :=
  match p with
  | fetchTasks_await _ | addTask_await _ _
  | toggleTask_await _ _ | deleteTask_await _ => true
  | _ => false
  end.

(** ** The screen (lines 120-247) *)

Inductive View :=
| sign_in_view (email_value : jsstring) (check_your_inbox : bool)
| tasks_view (newTask_value : jsstring) (add_disabled : bool)
             (items : list Task.t) (no_tasks_yet : bool).

Definition render (s : AppState) : View :=
  match session s with
  | None => sign_in_view (email s) (otpSent s)
  | Some _ =>
      tasks_view (newTask s)
                 (negb (JsString.truthy (JsString.trim (newTask s))))
                 (tasks s)
                 (Nat.eqb (length (tasks s)) 0)
  end.

(** ** The event loop *)

Inductive Event :=
| onAuthStateChange (session : option Session.t)
| change_email (value : jsstring)
| click_signInWithGoogle
| click_signInWithFacebook
| click_signInWithEmail
| click_signOut
| change_newTask (value : jsstring)
| click_addTask
| click_toggleTask (i : nat)     (* the button of the i-th list item *)
| click_deleteTask (i : nat)
| settle (n : nat) (r : Reply).   (* the n-th pending promise settles *)

(** One turn of the event loop.  [None]: the event cannot happen in this
    state (the control is not on screen or is disabled, there is no such
    pending call). *)
Definition step (s : AppState) (e : Event) : option AppState :=
  match e, render s with
  | onAuthStateChange se, _ => Some (setSession se s)
  | settle n r, _ =>
      p ← inflight s !! n;
      resume p r (set_inflight (delete n (inflight s)) s)
  | change_email v, sign_in_view _ _ => Some (setEmail v s)
  | click_signInWithGoogle, sign_in_view _ _ => Some (signInWithGoogle s)
  | click_signInWithFacebook, sign_in_view _ _ => Some (signInWithFacebook s)
  | click_signInWithEmail, sign_in_view _ _ => Some (signInWithEmail s)
  | click_signOut, tasks_view _ _ _ _ => Some (signOut s)
  | change_newTask v, tasks_view _ _ _ _ => Some (setNewTask v s)
  | click_addTask, tasks_view _ disabled _ _ =>
      if disabled then None else Some (addTask s)
  | click_toggleTask i, tasks_view _ _ items _ =>
      task ← items !! i;
      Some (toggleTask (Task.id task) (Task.is_completed task) s)
  | click_deleteTask i, tasks_view _ _ items _ =>
      task ← items !! i;
      Some (deleteTask (Task.id task) s)
  | _, _ => None
  end.

Fixpoint run (s : AppState) (trace : list Event) : option AppState :=
  match trace with
  | [] => Some s
  | e :: rest => s' ← step s e; run s' rest
  end.

(** States the mounted component can be in. *)
Definition reachable (s : AppState) : Prop :=
  ∃ trace, run mount trace = Some s.

(** ** The table store *)

Module Store.

(** The value a row has in a column of the [tasks] table. *)
Definition field (column : string) (r : Task.t) : option Value :=
  if String.eqb column "id" then Some (VNum (Task.id r))
  else if String.eqb column "title" then Some (VStr (Task.title r))
  else if String.eqb column "user_id" then Some (VStr (Task.user_id r))
  else if String.eqb column "is_completed"
       then Some (VBool (Task.is_completed r))
  else if String.eqb column "created_at" then Some (VNum (Task.created_at r))
  else None.

Fixpoint text_le (a b : jsstring) : bool :=
  match a, b with
  | [], _ => true
  | _ :: _, [] => false
  | x :: a', y :: b' => (x <? y)%N || (x =? y)%N && text_le a' b'
  end.

Definition value_le (x y : Value) : bool :=
  match x, y with
  | VNum a, VNum b => a <=? b
  | VStr a, VStr b => text_le a b
  | VBool a, VBool b => implb a b
  | VNum _, _ => true
  | VStr _, VBool _ => true
  | _, _ => false
  end.

Definition matches (eq : list (string * Value)) (r : Task.t) : bool :=
  forallb (fun cv => bool_decide (field (fst cv) r = Some (snd cv))) eq.

(** [a] may come before [b] under [order(column, { ascending })]. *)
Definition before (column : string) (ascending : bool) (a b : Task.t)
  : bool :=
  match field column a, field column b with
  | Some x, Some y => if ascending then value_le x y else value_le y x
  | _, _ => true
  end.

Definition known (column : string) : bool :=
  bool_decide (column ∈ ["id"; "title"; "user_id"; "is_completed";
                         "created_at"]%string).

(** Modelled from the spec: the table store that [./supabaseClient]
    connects to is not among the sources; section 6 of the specification
    gives its read statement as "select * where user_id = ? order by
    created_at desc".  [select] evaluates a read query of the builder in
    that way on the rows [db] of the [tasks] table: keep the rows whose
    columns equal the given values, then order them by the given column.
    Rows with equal keys come in the order the sort leaves them; nothing
    below depends on it. *)
Definition select (db : list Task.t) (table : string)
    (eq : list (string * Value)) (order : option (string * bool)) : Reply :=
  if negb (String.eqb table "tasks")
  then rows_reply None (Some (mkError (js "relation does not exist")))
  else if negb (forallb (fun cv => known (fst cv)) eq
                && from_option (fun o => known (fst o)) true order)
  then rows_reply None (Some (mkError (js "column does not exist")))
  else
    let kept := List.filter (matches eq) db in
    rows_reply
      (Some match order with
            | Some (column, ascending) =>
                merge_sort (fun a b => before column ascending a b) kept
            | None => kept
            end)
      None.

(** The reply to a read request.  The store's other statements change
    rows; what they answer is an input of the event loop. *)
Definition answer (db : list Task.t) (r : Request) : option Reply :=
  match r with
  | from table (Query.select _ eq order) => Some (select db table eq order)
  | _ => None
  end.

End Store.

(** The order [fetchTasks] asks for: newest first. *)
Definition newest_first (a b : Task.t) : Prop :=
  Is_true (Store.before "created_at" false a b).

(** ** Sample data for worked scenarios *)

Module Sample.
Definition alice : User.t := User.mk (js "A") (Some (js "a@x.com")) None.
Definition bob : User.t := User.mk (js "B") (Some (js "b@x.com")) None.

Definition session_A : Session.t := Session.mk 1 (Some alice).
Definition session_B : Session.t := Session.mk 2 (Some bob).

Definition tent : Task.t := Task.mk 1 (js "pitch tent") (js "A") false 10.
Definition wood : Task.t := Task.mk 3 (js "chop wood") (js "A") true 30.
Definition fish : Task.t := Task.mk 2 (js "catch fish") (js "B") false 20.
Definition water : Task.t := Task.mk 4 (js "boil water") (js "A") false 40.

(** Signed in as A, with A's list loaded and nothing pending. *)
Definition signed_in : AppState :=
  mkState (Some session_A) [] false [wood; tent] [] [] [] [].

(** The same, with a title typed into the input. *)
Definition typing (title : jsstring) : AppState := setNewTask title signed_in.

(** Signed out, with an address typed into the email field. *)
Definition signed_out : AppState :=
  mkState None (js "a@x.com") false [] [] [] [] [].

Definition failure : Error := mkError (js "request failed").
End Sample.

(** ** Session changes while requests are pending *)

(** A fetch sent for [userId] is stale in [s] when the current session is
    not that user's any more. *)
Definition stale (s : AppState) (userId : jsstring) : Prop :=
  truthy_user_id (session s) ≠ Some userId.

(** "Stale results are discarded": whatever a stale fetch settles to, the
    task list stays as it is. *)
Definition stale_fetch_discarded : Prop :=
  ∀ s n userId r s',
    reachable s →
    inflight s !! n = Some (fetchTasks_await userId) →
    stale s userId →
    step s (settle n r) = Some s' →
    tasks s' = tasks s.

(** "Without a session the task list is empty", as an invariant. *)
Definition signed_out_list_empty : Prop :=
  ∀ s, reachable s → session s = None → tasks s = [].

Module Scenario.
Import Sample.

(** A signs in, the session changes to B before A's tasks arrive, B's
    tasks arrive: A's fetch is still pending. *)
Definition switch_A_to_B : list Event :=
  [ settle 0 (session_reply (Some session_A) None);
    onAuthStateChange (Some session_B);
    settle 1 (rows_reply (Some [fish]) None) ].

(** A's fetch then succeeds. *)
Definition late_answer_for_A : Event :=
  settle 0 (rows_reply (Some [wood; tent]) None).

(** A signs in and signs out before the tasks arrive; then they do. *)
Definition sign_out_before_answer : list Event :=
  [ settle 0 (session_reply (Some session_A) None);
    onAuthStateChange None;
    late_answer_for_A ].

(** A signs in, A's tasks arrive, the session changes to B, and B's
    fetch fails. *)
Definition switch_then_fetch_fails : list Event :=
  [ settle 0 (session_reply (Some session_A) None);
    late_answer_for_A;
    onAuthStateChange (Some session_B);
    settle 0 (rows_reply None (Some failure)) ].
End Scenario.

(** ** What the component sends, and when *)

#[export] Instance Pending_eq_dec : EqDecision Pending.
Proof. solve_decision. Defined.

(** The circumstances in which a turn of the event loop from [s] to [s']
    sends the request of [p]; read off the call sites: the effect of lines
    32-38 for the fetch, the guards of [addTask], the buttons of the two
    screens for the rest.  [getSession] is only called on mount. *)
Definition justified (s s' : AppState) (p : Pending) : Prop :=
  match p with
  | getSession_then => False
  | signInWithOAuth_await provider =>
      session s = None ∧ (provider = "google" ∨ provider = "facebook")
  | signInWithEmail_await address => session s = None ∧ address = email s
  | signOut_await => session s ≠ None
  | fetchTasks_await userId =>
      Object_is (session s) (session s') = false ∧
      truthy_user_id (session s') = Some userId
  | addTask_await title userId =>
      truthy_user_id (session s) = Some userId ∧
      title = JsString.trim (newTask s) ∧ title ≠ []
  | toggleTask_await id isCompleted =>
      session s ≠ None ∧
      ∃ (i : nat) t, tasks s !! i = Some t ∧ Task.id t = id ∧
                     Task.is_completed t = isCompleted
  | deleteTask_await id =>
      session s ≠ None ∧ ∃ (i : nat) t, tasks s !! i = Some t ∧ Task.id t = id
  end.

(** No white space at either end. *)
Definition no_outer_space (t : jsstring) : Prop :=
  (∀ c r, t = c :: r → JsString.is_white_space c = false) ∧
  (∀ c r, t = r ++ [c] → JsString.is_white_space c = false).

(** What holds of every request in flight, whenever it was sent. *)
Definition well_sent (p : Pending) : Prop :=
  match p with
  | signInWithOAuth_await provider =>
      provider = "google" ∨ provider = "facebook"
  | fetchTasks_await userId => userId ≠ []
  | addTask_await title userId =>
      userId ≠ [] ∧ title ≠ [] ∧ no_outer_space title
  | _ => True
  end.

(** Two pending calls whose confirmations change the task list in ways
    that do not depend on the order: toggles and deletes, except two
    toggles of one identifier to different values. *)
Definition independent (p q : Pending) : bool :=
  match p, q with
  | toggleTask_await _ _, deleteTask_await _
  | deleteTask_await _, toggleTask_await _ _
  | deleteTask_await _, deleteTask_await _ => true
  | toggleTask_await id b, toggleTask_await id' b' =>
      bool_decide (id ≠ id') || bool_decide (b = b')
  | _, _ => false
  end.

(** What a reply that changes the task list must satisfy for the
    identifiers in the list to stay unique: the rows of a fetch carry
    distinct identifiers, the row of an insert a new one. *)
Definition keeps_ids_unique (s : AppState) (p : Pending) (r : Reply) : Prop :=
  match p, r with
  | fetchTasks_await _, rows_reply (Some rows) None =>
      NoDup (Task.id <$> rows)
  | addTask_await _ _, row_reply (Some d) None =>
      Task.id d ∉ Task.id <$> tasks s
  | _, _ => True
  end.

(** The calls whose continuation reads the [error] member of the answer:
    all but [getSession], whose callback takes [data.session] only (line
    18), and the OAuth sign-ins, whose answer is not bound to anything
    (lines 42 and 46). *)
Definition reads_error (p : Pending) : bool :=
  match p with
  | getSession_then | signInWithOAuth_await _ => false
  | _ => true
  end.

(** What the confirmation of a pending toggle or delete does to the
    list ([setTasks(prev => ...)] of lines 103-107 and 116). *)
Definition on_confirm (p : Pending) (prev : list Task.t) : list Task.t :=
  match p with
  | toggleTask_await id isCompleted => toggle_in id isCompleted prev
  | deleteTask_await id => delete_in id prev
  | _ => prev
  end.

(** ** The list items (lines 208-239) *)

Record Item := mkItem {
  key : Z;
  text : jsstring;
  line_through : bool;       (* the title's class *)
  toggle_label : string;     (* 'Undo' or 'Complete' *)
}.

Definition render_item (task : Task.t) : Item :=
  {| key := Task.id task;
     text := Task.title task;
     line_through := Task.is_completed task;
     toggle_label := if Task.is_completed task then "Undo" else "Complete" |}.

(** * Properties *)

(** ** Basic facts about the state accessors *)

Lemma await_inflight p s : inflight (await p s) = inflight s ++ [p].
Proof. reflexivity. Qed.

Lemma await_tasks p s : tasks (await p s) = tasks s.
Proof. reflexivity. Qed.

Lemma lookup_await_last p s : inflight (await p s) !! length (inflight s) = Some p.
Proof.
  rewrite await_inflight, lookup_app_r by lia.
  by rewrite Nat.sub_diag.
Qed.

Lemma delete_await_last p s :
  delete (length (inflight s)) (inflight (await p s)) = inflight s.
Proof.
  rewrite await_inflight.
  induction (inflight s) as [|q l IH]; simpl; [done | by rewrite IH].
Qed.

Lemma step_settle s n r :
  step s (settle n r) =
  p ← inflight s !! n; resume p r (set_inflight (delete n (inflight s)) s).
Proof. unfold step. by destruct (render s). Qed.

Lemma settled_await_last p s :
  set_inflight (delete (length (inflight s)) (inflight (await p s)))
               (await p s) = s.
Proof. rewrite delete_await_last. by destruct s. Qed.

(** Settling the call that was sent last. *)
Lemma settle_last p r s :
  step (await p s) (settle (length (inflight s)) r) = resume p r s.
Proof.
  rewrite step_settle, lookup_await_last. cbn [mbind option_bind].
  by rewrite settled_await_last.
Qed.

(** ** White space and [trim] *)

Section trim.
Import JsString.

Lemma trimStart_nil_iff s :
  trimStart s = [] ↔ forallb is_white_space s = true.
Proof.
  induction s as [|c r IH]; simpl; [done |].
  destruct (is_white_space c); simpl; [done |].
  split; discriminate.
Qed.

Lemma trimStart_head s c r :
  trimStart s = c :: r → is_white_space c = false.
Proof.
  induction s as [|d s' IH]; simpl; [discriminate |].
  destruct (is_white_space d) eqn:Hd; [done |].
  intros [= -> _]. exact Hd.
Qed.

Lemma forallb_rev (f : N → bool) l : forallb f (rev l) = forallb f l.
Proof.
  induction l as [|x l IH]; simpl; [done |].
  rewrite forallb_app, IH. simpl. destruct (f x), (forallb f l); done.
Qed.

(** A title trims to the empty string exactly when it is empty or all
    white space. *)
Lemma trim_nil_iff s : trim s = [] ↔ forallb is_white_space s = true.
Proof.
  unfold trim, trimEnd. split.
  - intros H. apply (f_equal (@rev N)) in H. rewrite rev_involutive in H.
    simpl in H. apply trimStart_nil_iff in H. rewrite forallb_rev in H.
    destruct (trimStart s) as [|c r] eqn:Hs; [by apply trimStart_nil_iff |].
    apply trimStart_head in Hs. simpl in H. by rewrite Hs in H.
  - intros H. apply trimStart_nil_iff in H. by rewrite H.
Qed.
End trim.

(** ** addTask (lines 75-92) *)

(** C5: when the pending title is empty or made of white space only, it
    trims to the empty string and [addTask] returns at once: the state is
    the one before the call, so no insert request has been sent and the
    local task list is unchanged. *)
Theorem addTask_blank_title_noop (s : AppState) :
  forallb JsString.is_white_space (newTask s) = true →
  JsString.trim (newTask s) = [] ∧
  inflight (addTask s) = inflight s ∧
  tasks (addTask s) = tasks s ∧
  addTask s = s.
Proof.
  intros Hblank. apply trim_nil_iff in Hblank.
  unfold addTask. rewrite Hblank. simpl. done.
Qed.

Lemma addTask_blank_title_noop_witness :
  forallb JsString.is_white_space (newTask (Sample.typing (js "   "))) = true ∧
  addTask (Sample.typing (js "   ")) = Sample.typing (js "   ").
Proof.
  split; [reflexivity |].
  apply (addTask_blank_title_noop (Sample.typing (js "   "))). reflexivity.
Defined.

(** C10: when [session?.user?.id] is not a usable identifier (no session,
    no user, or an empty identifier), [addTask] returns before the store
    call whatever the title is: no request is sent, and the task list and
    the pending title stay as they were. *)
Theorem addTask_unauthenticated_noop (s : AppState) :
  truthy_user_id (session s) = None →
  inflight (addTask s) = inflight s ∧
  tasks (addTask s) = tasks s ∧
  newTask (addTask s) = newTask s ∧
  addTask s = s.
Proof.
  intros Hnone. unfold addTask. rewrite Hnone.
  by destruct (negb _).
Qed.

Lemma addTask_unauthenticated_noop_witness :
  truthy_user_id (session (setNewTask (js "buy milk") Sample.signed_out)) = None ∧
  addTask (setNewTask (js "buy milk") Sample.signed_out)
  = setNewTask (js "buy milk") Sample.signed_out.
Proof.
  split; [reflexivity |].
  apply (addTask_unauthenticated_noop
           (setNewTask (js "buy milk") Sample.signed_out)).
  reflexivity.
Defined.

(** With a user and a title that does not trim to nothing, [addTask]
    sends the insert of the trimmed title for that user. *)
Lemma addTask_sends s userId :
  truthy_user_id (session s) = Some userId →
  JsString.trim (newTask s) ≠ [] →
  addTask s = await (addTask_await (JsString.trim (newTask s)) userId) s.
Proof.
  intros Hu Ht. unfold addTask. rewrite Hu.
  destruct (JsString.trim (newTask s)); [done | reflexivity].
Qed.

(** C6: for a signed-in user and a title that is not empty after
    trimming, [addTask] sends the insert of the trimmed title; when the
    store answers with the created row and no error, exactly that row is
    put in front of the local list as it is at that moment, the rows
    already listed following it in their order. *)
Theorem addTask_success_prepends (s : AppState) (userId : jsstring) :
  truthy_user_id (session s) = Some userId →
  JsString.trim (newTask s) ≠ [] →
  let title := JsString.trim (newTask s) in
  inflight (addTask s) = inflight s ++ [addTask_await title userId] ∧
  tasks (addTask s) = tasks s ∧
  request_of (addTask_await title userId)
  = from "tasks" (Query.insert_select_single
                    [[("title", VStr title); ("user_id", VStr userId)]]) ∧
  ∀ (s1 : AppState) (n : nat) (record : Task.t),
    inflight s1 !! n = Some (addTask_await title userId) →
    ∃ s2, step s1 (settle n (row_reply (Some record) None)) = Some s2 ∧
          tasks s2 = record :: tasks s1 ∧
          inflight s2 = delete n (inflight s1).
Proof.
  intros Hu Ht title. rewrite (addTask_sends s userId Hu Ht).
  repeat split.
  intros s1 n record Hn. rewrite step_settle, Hn. simpl.
  eexists. repeat split.
Qed.

Lemma addTask_success_prepends_witness :
  truthy_user_id (session (Sample.typing (js " boil water "))) = Some (js "A") ∧
  JsString.trim (newTask (Sample.typing (js " boil water "))) = js "boil water" ∧
  ∃ s2, step (addTask (Sample.typing (js " boil water ")))
             (settle 0 (row_reply (Some Sample.water) None)) = Some s2 ∧
        tasks s2 = [Sample.water; Sample.wood; Sample.tent].
Proof.
  split; [reflexivity |]. split; [reflexivity |].
  destruct (addTask_success_prepends (Sample.typing (js " boil water "))
              (js "A") eq_refl ltac:(discriminate))
    as (_ & _ & _ & Hsettle).
  destruct (Hsettle (addTask (Sample.typing (js " boil water "))) 0%nat
              Sample.water eq_refl) as (s2 & Hstep & Htasks & _).
  exists s2. split; [exact Hstep | exact Htasks].
Defined.

(** ** toggleTask and deleteTask (lines 94-118) *)

Lemma toggle_in_lookup id b prev (i : nat) :
  toggle_in id b prev !! i
  = (λ t, if decide (Task.id t = id)
          then Task.with_is_completed (negb b) t else t) <$> prev !! i.
Proof. unfold toggle_in. apply list_lookup_fmap. Qed.

Lemma toggle_in_length id b prev :
  length (toggle_in id b prev) = length prev.
Proof. unfold toggle_in. apply length_map. Qed.

Lemma delete_in_elem_of id prev t :
  t ∈ delete_in id prev ↔ t ∈ prev ∧ Task.id t ≠ id.
Proof. unfold delete_in. rewrite list_elem_of_filter. tauto. Qed.

Lemma delete_in_sublist id prev : sublist (delete_in id prev) prev.
Proof. unfold delete_in. apply sublist_filter. Qed.

(** Rows with another identifier are all kept, in their order. *)
Lemma delete_in_others id prev :
  filter (λ t, Task.id t ≠ id) (delete_in id prev)
  = filter (λ t, Task.id t ≠ id) prev.
Proof.
  unfold delete_in.
  induction prev as [|t prev IH]; [done |].
  rewrite !filter_cons. destruct (decide (Task.id t ≠ id)) as [Hne|Heq].
  - rewrite filter_cons. destruct (decide (Task.id t ≠ id)); [| done].
    by rewrite IH.
  - exact IH.
Qed.

Lemma toggle_in_absent id b prev :
  Forall (λ t, Task.id t ≠ id) prev → toggle_in id b prev = prev.
Proof.
  induction 1 as [|t prev Ht _ IH]; simpl; [done |].
  rewrite decide_False by done. by f_equal.
Qed.

Lemma delete_in_absent id prev :
  Forall (λ t, Task.id t ≠ id) prev → delete_in id prev = prev.
Proof.
  unfold delete_in. induction 1 as [|t prev Ht _ IH]; [done |].
  rewrite filter_cons, decide_True by done. by f_equal.
Qed.

(** Where identifiers are unique, the other records carry other ones. *)
Lemma unique_id_elsewhere t prev :
  NoDup (Task.id <$> t :: prev) → Forall (λ x, Task.id x ≠ Task.id t) prev.
Proof.
  rewrite fmap_cons, NoDup_cons. intros [Hnotin _].
  apply Forall_forall. intros x Hx Heq. apply Hnotin.
  rewrite <- Heq. apply list_elem_of_fmap. by exists x.
Qed.

Lemma unique_id_not_head x prev (j : nat) t :
  NoDup (Task.id <$> x :: prev) → prev !! j = Some t →
  Task.id x ≠ Task.id t.
Proof.
  intros Hnd Hj Heq. apply unique_id_elsewhere in Hnd.
  rewrite Forall_forall in Hnd.
  apply (Hnd t); [by eapply list_elem_of_lookup_2 | done].
Qed.

(** With unique identifiers the toggle is an update of one position and
    the delete the removal of one position. *)
Lemma toggle_in_unique id b prev (i : nat) t :
  NoDup (Task.id <$> prev) → prev !! i = Some t → Task.id t = id →
  toggle_in id b prev = <[i := Task.with_is_completed (negb b) t]> prev.
Proof.
  revert i. induction prev as [|x prev IH]; intros i Hnd Hi Hid; [done |].
  destruct i as [|j]; simpl in Hi.
  - injection Hi as ->. subst id. simpl. rewrite decide_True by done.
    f_equal. by apply toggle_in_absent, unique_id_elsewhere.
  - simpl. rewrite decide_False
      by (subst id; by eapply unique_id_not_head).
    f_equal. apply IH; [| done | done].
    rewrite fmap_cons in Hnd. by apply NoDup_cons in Hnd as [_ ?].
Qed.

Lemma delete_in_unique id prev (i : nat) t :
  NoDup (Task.id <$> prev) → prev !! i = Some t → Task.id t = id →
  delete_in id prev = delete i prev.
Proof.
  revert i. induction prev as [|x prev IH]; intros i Hnd Hi Hid; [done |].
  unfold delete_in. rewrite filter_cons.
  destruct i as [|j]; simpl in Hi.
  - injection Hi as ->. subst id. rewrite decide_False by (by intros ?).
    by apply delete_in_absent, unique_id_elsewhere.
  - rewrite decide_True by (subst id; by eapply unique_id_not_head).
    simpl. f_equal. apply IH; [| done | done].
    rewrite fmap_cons in Hnd. by apply NoDup_cons in Hnd as [_ ?].
Qed.

(** C7: when the store confirms [toggleTask(id, b)], the local list keeps
    its length and positions; each record whose identifier is [id] gets
    completion flag [not b] and keeps its identifier, title, owner and
    creation time, and each other record is the same as before.  When the
    store confirms [deleteTask(id)], the local list is the previous one
    without the records whose identifier is [id]: the others all remain,
    in their order.  With identifiers unique in the list, as the store
    assigns them, that is the update, respectively the removal, of the one
    position holding [id].  Nothing else of the component's state
    changes. *)
Theorem toggle_delete_frame (s : AppState) (n : nat) (id : Z) :
  (∀ b, inflight s !! n = Some (toggleTask_await id b) →
     ∃ s', step s (settle n (error_reply None)) = Some s' ∧
       length (tasks s') = length (tasks s) ∧
       (∀ (i : nat) t, tasks s !! i = Some t →
          ∃ t', tasks s' !! i = Some t' ∧
            Task.id t' = Task.id t ∧ Task.title t' = Task.title t ∧
            Task.user_id t' = Task.user_id t ∧
            Task.created_at t' = Task.created_at t ∧
            (Task.id t = id → Task.is_completed t' = negb b) ∧
            (Task.id t ≠ id → t' = t)) ∧
       (∀ (i : nat) t, NoDup (Task.id <$> tasks s) →
          tasks s !! i = Some t → Task.id t = id →
          tasks s' = <[i := Task.with_is_completed (negb b) t]> (tasks s)) ∧
       s' = setTasks (tasks s') (set_inflight (delete n (inflight s)) s))
  ∧
  (inflight s !! n = Some (deleteTask_await id) →
     ∃ s', step s (settle n (error_reply None)) = Some s' ∧
       (∀ t, t ∈ tasks s' ↔ t ∈ tasks s ∧ Task.id t ≠ id) ∧
       sublist (tasks s') (tasks s) ∧
       filter (λ t, Task.id t ≠ id) (tasks s')
       = filter (λ t, Task.id t ≠ id) (tasks s) ∧
       (∀ (i : nat) t, NoDup (Task.id <$> tasks s) →
          tasks s !! i = Some t → Task.id t = id →
          tasks s' = delete i (tasks s)) ∧
       s' = setTasks (tasks s') (set_inflight (delete n (inflight s)) s)).
Proof.
  split.
  - intros b Hn. rewrite step_settle, Hn. simpl.
    eexists. split; [reflexivity |]. simpl.
    split; [apply toggle_in_length |].
    split; [| split; [apply toggle_in_unique | reflexivity]].
    intros i t Hi. rewrite toggle_in_lookup, Hi. simpl.
    eexists. split; [reflexivity |].
    destruct (decide (Task.id t = id)) as [Heq|Hne]; simpl; repeat split;
      try done.
  - intros Hn. rewrite step_settle, Hn. simpl.
    eexists. split; [reflexivity |]. simpl.
    split; [apply delete_in_elem_of |].
    split; [apply delete_in_sublist |].
    split; [apply delete_in_others |].
    split; [apply delete_in_unique | reflexivity].
Qed.

Lemma toggle_delete_frame_witness :
  (inflight (toggleTask 1 false Sample.signed_in) !! 0%nat
   = Some (toggleTask_await 1 false) ∧
   ∃ s', step (toggleTask 1 false Sample.signed_in)
              (settle 0 (error_reply None)) = Some s' ∧
         tasks s' = [Sample.wood; Task.with_is_completed true Sample.tent]) ∧
  (inflight (deleteTask 1 Sample.signed_in) !! 0%nat
   = Some (deleteTask_await 1) ∧
   ∃ s', step (deleteTask 1 Sample.signed_in)
              (settle 0 (error_reply None)) = Some s' ∧
         tasks s' = [Sample.wood]).
Proof.
  assert (Hunique : NoDup (Task.id <$> [Sample.wood; Sample.tent])).
  { apply (bool_decide_unpack _). reflexivity. }
  split.
  - split; [reflexivity |].
    destruct (proj1 (toggle_delete_frame
                       (toggleTask 1 false Sample.signed_in) 0 1)
                false eq_refl) as (s' & Hstep & _ & _ & Hone & _).
    exists s'. split; [exact Hstep |].
    exact (Hone 1%nat Sample.tent Hunique eq_refl eq_refl).
  - split; [reflexivity |].
    destruct (proj2 (toggle_delete_frame
                       (deleteTask 1 Sample.signed_in) 0 1) eq_refl)
      as (s' & Hstep & _ & _ & _ & Hone & _).
    exists s'. split; [exact Hstep |].
    exact (Hone 1%nat Sample.tent Hunique eq_refl eq_refl).
Defined.

(** The Complete/Undo button of a list item calls [toggleTask] with the
    item's identifier and its current flag. *)
Lemma click_toggleTask_calls s (i : nat) t :
  session s ≠ None → tasks s !! i = Some t →
  step s (click_toggleTask i)
  = Some (toggleTask (Task.id t) (Task.is_completed t) s).
Proof.
  intros Hs Hi. unfold step, render.
  destruct (session s); [| done]. by rewrite Hi.
Qed.

(** A click on the button followed by the store's confirmation. *)
Lemma click_toggleTask_confirmed s (i : nat) t :
  session s ≠ None → tasks s !! i = Some t →
  run s [click_toggleTask i; settle (length (inflight s)) (error_reply None)]
  = Some (setTasks (toggle_in (Task.id t) (Task.is_completed t) (tasks s)) s).
Proof.
  intros Hs Hi. cbn [run].
  rewrite (click_toggleTask_calls s i t Hs Hi). cbn [mbind option_bind].
  unfold toggleTask. by rewrite settle_last.
Qed.

(** Passing the same [isCompleted] again changes nothing more: the
    second call sets the flag to the value the first one set. *)
Lemma toggle_in_same_argument id b prev :
  toggle_in id b (toggle_in id b prev) = toggle_in id b prev.
Proof.
  unfold toggle_in. rewrite map_map. apply map_ext. intros t.
  destruct (decide (Task.id t = id)) as [Heq|Hne]; simpl.
  - rewrite decide_True by done. reflexivity.
  - by rewrite decide_False.
Qed.

(** C2: for a record of the local list with completion value [b], two
    presses of its toggle button, each confirmed by the store, call
    [toggleTask(id, b)] and then [toggleTask(id, not b)], which ask the
    store to persist [not b] and then [b]; after the first the record's
    local flag is [not b], after the second the record is again what it
    was, completion value [b] included. *)
Theorem toggleTask_twice_restores (s : AppState) (i : nat) (t : Task.t) :
  session s ≠ None →
  tasks s !! i = Some t →
  let id := Task.id t in
  let b := Task.is_completed t in
  let confirmed := settle (length (inflight s)) (error_reply None) in
  ∃ s1 s2 t1,
    step s (click_toggleTask i) = Some (toggleTask id b s) ∧
    run s [click_toggleTask i; confirmed] = Some s1 ∧
    tasks s1 !! i = Some t1 ∧
    Task.is_completed t1 = negb b ∧
    step s1 (click_toggleTask i) = Some (toggleTask id (negb b) s1) ∧
    run s1 [click_toggleTask i; confirmed] = Some s2 ∧
    tasks s2 !! i = Some t ∧
    run s [click_toggleTask i; confirmed; click_toggleTask i; confirmed]
    = Some s2 ∧
    request_of (toggleTask_await id b)
    = from "tasks" (Query.update [("is_completed", VBool (negb b))]
                                 [("id", VNum id)]) ∧
    request_of (toggleTask_await id (negb b))
    = from "tasks" (Query.update [("is_completed", VBool b)]
                                 [("id", VNum id)]).
Proof.
  intros Hs Hi id b confirmed.
  pose (s1 := setTasks (toggle_in id b (tasks s)) s).
  pose (t1 := Task.with_is_completed (negb b) t).
  assert (Hi1 : tasks s1 !! i = Some t1).
  { subst s1 t1. simpl. rewrite toggle_in_lookup, Hi. simpl.
    by rewrite decide_True. }
  assert (Hs1 : session s1 ≠ None) by exact Hs.
  assert (Hrun1 : run s [click_toggleTask i; confirmed] = Some s1)
    by exact (click_toggleTask_confirmed s i t Hs Hi).
  assert (Hrun2 : run s1 [click_toggleTask i; confirmed]
                  = Some (setTasks (toggle_in id (negb b) (tasks s1)) s1))
    by exact (click_toggleTask_confirmed s1 i t1 Hs1 Hi1).
  exists s1, (setTasks (toggle_in id (negb b) (tasks s1)) s1), t1.
  split; [exact (click_toggleTask_calls s i t Hs Hi) |].
  split; [exact Hrun1 |].
  split; [exact Hi1 |].
  split; [reflexivity |].
  split; [exact (click_toggleTask_calls s1 i t1 Hs1 Hi1) |].
  split; [exact Hrun2 |].
  split; [| split; [| split; [reflexivity |]]].
  - simpl. rewrite toggle_in_lookup. simpl in Hi1. rewrite Hi1. simpl.
    rewrite decide_True by done. subst t1 b.
    rewrite Bool.negb_involutive. by destruct t.
  - change (run s ([click_toggleTask i; confirmed]
                   ++ [click_toggleTask i; confirmed])
            = Some (setTasks (toggle_in id (negb b) (tasks s1)) s1)).
    cbn [run app] in *.
    destruct (step s (click_toggleTask i)) as [sa|]; [| done].
    cbn [mbind option_bind] in *.
    destruct (step sa confirmed) as [sb|]; [| done].
    cbn [mbind option_bind] in *.
    injection Hrun1 as ->. exact Hrun2.
  - simpl. by rewrite Bool.negb_involutive.
Qed.

Lemma toggleTask_twice_restores_witness :
  session Sample.signed_in ≠ None ∧
  tasks Sample.signed_in !! 1%nat = Some Sample.tent ∧
  ∃ s2, run Sample.signed_in
            [click_toggleTask 1; settle 0 (error_reply None);
             click_toggleTask 1; settle 0 (error_reply None)] = Some s2 ∧
        tasks s2 !! 1%nat = Some Sample.tent.
Proof.
  split; [discriminate |]. split; [reflexivity |].
  destruct (toggleTask_twice_restores Sample.signed_in 1 Sample.tent
              ltac:(discriminate) eq_refl)
    as (s1 & s2 & t1 & _ & _ & _ & _ & _ & _ & Hi2 & Hrun & _).
  exists s2. split; [exact Hrun | exact Hi2].
Defined.

(** ** Errors (the [if (error)] branches) *)

Lemma resume_expects p r s : is_Some (resume p r s) ↔ expects p r = true.
Proof.
  destruct p, r; simpl; split; intros H;
    try done; try (by eexists); by destruct H.
Qed.

Lemma addTask_tasks s : tasks (addTask s) = tasks s.
Proof.
  unfold addTask. destruct (negb _); [done |].
  by destruct (truthy_user_id (session s)).
Qed.

(** The error branch of a task operation: one [console.error], nothing
    else. *)
Lemma resume_error p r e s :
  task_operation p = true → expects p r = true → reply_error r = Some e →
  ∃ label, resume p r s = Some (console_error label (arg_error e) s).
Proof.
  intros Hop Hshape Herr.
  destruct p; try discriminate Hop; destruct r; try discriminate Hshape;
    simpl in Herr; try discriminate Herr; subst; simpl; by eexists.
Qed.

(** C3: when the store answers a fetch, an add, a toggle or a delete with
    an error, the local task list after the answer is the list before it;
    the error goes to [console.error] and is not rethrown (no rejection is
    left unhandled), and the other state keeps its values.  Sending the
    request does not touch the list either, so an operation that fails
    right away leaves the state it started from, one console entry
    apart. *)
Theorem store_error_state_unchanged
    (s : AppState) (n : nat) (p : Pending) (r : Reply) (e : Error) :
  inflight s !! n = Some p →
  task_operation p = true →
  expects p r = true →
  reply_error r = Some e →
  tasks (await p s) = tasks s ∧
  tasks (addTask s) = tasks s ∧
  (∃ label,
     step (await p s) (settle (length (inflight s)) r)
     = Some (console_error label (arg_error e) s)) ∧
  ∃ s' label,
    step s (settle n r) = Some s' ∧
    tasks s' = tasks s ∧
    console s' = console s ++ [(label, arg_error e)] ∧
    unhandled s' = unhandled s ∧
    session s' = session s ∧ newTask s' = newTask s ∧
    email s' = email s ∧ otpSent s' = otpSent s ∧
    inflight s' = delete n (inflight s).
Proof.
  intros Hn Hop Hshape Herr.
  split; [reflexivity |]. split; [apply addTask_tasks |]. split.
  - destruct (resume_error p r e s Hop Hshape Herr) as [label Hres].
    exists label. by rewrite settle_last.
  - destruct (resume_error p r e (set_inflight (delete n (inflight s)) s)
                Hop Hshape Herr) as [label Hres].
    eexists _, label. rewrite step_settle, Hn. simpl.
    split; [exact Hres |]. simpl. done.
Qed.

Lemma store_error_state_unchanged_witness :
  inflight (fetchTasks (js "A") Sample.signed_in) !! 0%nat
  = Some (fetchTasks_await (js "A")) ∧
  ∃ s', step (fetchTasks (js "A") Sample.signed_in)
             (settle 0 (rows_reply None (Some Sample.failure))) = Some s' ∧
        tasks s' = [Sample.wood; Sample.tent] ∧
        unhandled s' = [].
Proof.
  split; [reflexivity |].
  destruct (store_error_state_unchanged
              (fetchTasks (js "A") Sample.signed_in) 0
              (fetchTasks_await (js "A"))
              (rows_reply None (Some Sample.failure)) Sample.failure
              eq_refl eq_refl eq_refl eq_refl)
    as (_ & _ & _ & s' & label & Hstep & Htasks & _ & Hun & _).
  exists s'. split; [exact Hstep |]. split; [exact Htasks | exact Hun].
Defined.

(** ** signInWithEmail (lines 49-56) *)

(** C9: [signInWithEmail] asks the provider to send a link to the address
    in the email field and sets nothing by itself.  When the provider
    answers, [otpSent] becomes true if there is no error; with an error it
    keeps its value and the error's message goes to [console.error]: from
    a state where the confirmation is not shown, it is shown afterwards
    exactly when the provider call succeeded.  Neither the call nor the
    answer changes [session]. *)
Theorem signInWithEmail_link_sent
    (s : AppState) (n : nat) (address : jsstring) (error : option Error) :
  inflight s !! n = Some (signInWithEmail_await address) →
  (signInWithEmail s = await (signInWithEmail_await (email s)) s ∧
   request_of (signInWithEmail_await (email s))
   = auth_signInWithOtp (email s) ∧
   session (signInWithEmail s) = session s ∧
   otpSent (signInWithEmail s) = otpSent s) ∧
  ∃ s',
    step s (settle n (error_reply error)) = Some s' ∧
    session s' = session s ∧
    otpSent s' = (otpSent s || bool_decide (error = None)) ∧
    (otpSent s = false → (otpSent s' = true ↔ error = None)) ∧
    match error with
    | None => console s' = console s
    | Some e =>
        console s'
        = console s ++ [("Error sending magic link:"%string,
                         arg_string (message e))]
    end.
Proof.
  intros Hn. split; [done |].
  rewrite step_settle, Hn. simpl.
  eexists. split; [reflexivity |].
  destruct error as [e|]; simpl.
  - split; [done |]. split; [by rewrite orb_false_r |].
    split; [| done]. intros ->. split; discriminate.
  - split; [done |]. split; [by rewrite orb_true_r |]. done.
Qed.

Lemma signInWithEmail_link_sent_witness :
  inflight (signInWithEmail Sample.signed_out) !! 0%nat
  = Some (signInWithEmail_await (js "a@x.com")) ∧
  ∃ s', step (signInWithEmail Sample.signed_out)
             (settle 0 (error_reply None)) = Some s' ∧
        session s' = None ∧
        render s' = sign_in_view (js "a@x.com") true.
Proof.
  split; [reflexivity |].
  destruct (signInWithEmail_link_sent (signInWithEmail Sample.signed_out) 0
              (js "a@x.com") None eq_refl)
    as (_ & s' & Hstep & Hsession & Hotp & _ & _).
  exists s'. split; [exact Hstep |]. split; [exact Hsession |].
  unfold render. rewrite Hsession, Hotp.
  injection Hstep as <-. reflexivity.
Defined.

(** ** fetchTasks (lines 64-73) *)

Section fetch_query.
Variable userId : jsstring.

Lemma newest_first_created_at a b :
  newest_first a b ↔ Task.created_at b ≤ Task.created_at a.
Proof.
  unfold newest_first, Store.before. simpl.
  rewrite Is_true_true. apply Z.leb_le.
Qed.

#[local] Instance newest_first_total : Total newest_first.
Proof. intros a b. rewrite !newest_first_created_at. lia. Qed.

#[local] Instance newest_first_trans : Transitive newest_first.
Proof. intros a b c. rewrite !newest_first_created_at. lia. Qed.

(** The filter [fetchTasks] asks for: rows of this user. *)
Lemma matches_user_id t :
  Store.matches [("user_id"%string, VStr userId)] t = true
  ↔ Task.user_id t = userId.
Proof.
  unfold Store.matches. simpl.
  change (Store.field "user_id" t) with (Some (VStr (Task.user_id t))).
  rewrite andb_true_r, bool_decide_eq_true.
  split; [by intros [= ->] | by intros ->].
Qed.

(** What the store answers to the query of [fetchTasks]. *)
Lemma answer_fetchTasks db :
  Store.answer db (request_of (fetchTasks_await userId))
  = Some (rows_reply
            (Some (merge_sort newest_first
                     (List.filter
                        (Store.matches [("user_id"%string, VStr userId)])
                        db)))
            None).
Proof. reflexivity. Qed.
End fetch_query.

Lemma StronglySorted_impl {A} (R R' : relation A) l :
  (∀ a b, R a b → R' a b) → StronglySorted R l → StronglySorted R' l.
Proof.
  intros HR. induction 1 as [|a l Hl IH Hall]; constructor; [done |].
  eapply Forall_impl; [exact Hall | by auto].
Qed.

(** C4: the store's answer to the query [fetchTasks(userId)] sends is the
    set of rows owned by [userId], newest first; when it arrives, the local
    task list is that answer: every task in it has owner [userId], none
    has another owner, each task was created no earlier than those after
    it, and the list holds exactly the user's rows of the table. *)
Theorem fetchTasks_owner_and_order
    (db : list Task.t) (s : AppState) (n : nat) (userId : jsstring) :
  inflight s !! n = Some (fetchTasks_await userId) →
  ∃ data s',
    Store.answer db (request_of (fetchTasks_await userId))
    = Some (rows_reply (Some data) None) ∧
    step s (settle n (rows_reply (Some data) None)) = Some s' ∧
    tasks s' = data ∧
    Forall (λ t, Task.user_id t = userId) (tasks s') ∧
    StronglySorted (λ a b, Task.created_at b ≤ Task.created_at a)
                   (tasks s') ∧
    tasks s' ≡ₚ filter (λ t, Task.user_id t = userId) db.
Proof.
  intros Hn. eexists _, _.
  split; [apply answer_fetchTasks |].
  rewrite step_settle, Hn. simpl. split; [reflexivity |]. simpl.
  split; [reflexivity |].
  set (kept := List.filter _ db).
  assert (Hkept : ∀ t, t ∈ kept ↔ t ∈ db ∧ Task.user_id t = userId).
  { intros t. subst kept. rewrite !list_elem_of_In, filter_In.
    by rewrite matches_user_id. }
  split; [| split].
  - apply Forall_forall. intros t Ht.
    rewrite merge_sort_Permutation in Ht. by apply Hkept in Ht as [_ ?].
  - eapply StronglySorted_impl;
      [| apply StronglySorted_merge_sort;
         [apply newest_first_trans | apply newest_first_total]].
    intros a b. by rewrite newest_first_created_at.
  - rewrite merge_sort_Permutation. subst kept.
    clear. induction db as [|t db' IH]; [done |].
    rewrite filter_cons. cbn [List.filter].
    destruct (Store.matches [("user_id"%string, VStr userId)] t) eqn:Hm.
    + apply matches_user_id in Hm. rewrite decide_True by done.
      by constructor.
    + destruct (decide (Task.user_id t = userId)) as [Heq|]; [| done].
      apply matches_user_id in Heq. congruence.
Qed.

Lemma fetchTasks_owner_and_order_witness :
  inflight (fetchTasks (js "A") Sample.signed_out) !! 0%nat
  = Some (fetchTasks_await (js "A")) ∧
  ∃ s', step (fetchTasks (js "A") Sample.signed_out)
             (settle 0 (rows_reply (Some [Sample.wood; Sample.tent]) None))
        = Some s' ∧
        Forall (λ t, Task.user_id t = js "A") (tasks s').
Proof.
  split; [reflexivity |].
  destruct (fetchTasks_owner_and_order
              [Sample.tent; Sample.fish; Sample.wood]
              (fetchTasks (js "A") Sample.signed_out) 0 (js "A") eq_refl)
    as (data & s' & Hanswer & Hstep & _ & Hown & _).
  exists s'. split; [| exact Hown].
  injection Hanswer as <-. exact Hstep.
Defined.

(** ** Session changes (lines 31-38) and late answers *)

Lemma setSession_changed s v :
  Object_is (session s) v = false →
  setSession v s = session_effect (setSessionState v s).
Proof. intros H. unfold setSession. by rewrite H. Qed.

(** A change of session cancels nothing: what was pending stays pending,
    at the same place in the queue. *)
Lemma setSession_keeps_pending s v (n : nat) p :
  inflight s !! n = Some p → inflight (setSession v s) !! n = Some p.
Proof.
  intros Hn. unfold setSession. destruct (Object_is _ _); [done |].
  unfold session_effect. simpl.
  destruct (truthy_user_id v); simpl; [| done].
  by apply lookup_app_l_Some.
Qed.

Lemma session_setSession_changed s v :
  Object_is (session s) v = false → session (setSession v s) = v.
Proof.
  intros H. rewrite (setSession_changed s v H). unfold session_effect.
  simpl. by destruct (truthy_user_id v).
Qed.

(** C1, as the source has it: a change of session leaves a pending fetch
    pending, and when a fetch settles the session is not looked at.  A
    fetch that succeeds puts its rows in place of the local task list
    whoever the current user is, also when it was sent for another user;
    only a fetch that fails leaves the list as it is.  The session itself
    is untouched. *)
Theorem fetch_result_applied_any_session
    (s : AppState) (n : nat) (userId : jsstring) (v : option Session.t)
    (data : option (list Task.t)) (error : option Error) :
  inflight s !! n = Some (fetchTasks_await userId) →
  (∃ s',
     step s (settle n (rows_reply data error)) = Some s' ∧
     session s' = session s ∧
     tasks s' = match error with
                | Some _ => tasks s
                | None => default [] data
                end) ∧
  (Object_is (session s) v = false →
   ∃ s1 s2,
     step s (onAuthStateChange v) = Some s1 ∧
     session s1 = v ∧
     inflight s1 !! n = Some (fetchTasks_await userId) ∧
     step s1 (settle n (rows_reply data error)) = Some s2 ∧
     session s2 = v ∧
     tasks s2 = match error with
                | Some _ => tasks s1
                | None => default [] data
                end).
Proof.
  assert (Hany : ∀ s0, inflight s0 !! n = Some (fetchTasks_await userId) →
            ∃ s', step s0 (settle n (rows_reply data error)) = Some s' ∧
                  session s' = session s0 ∧
                  tasks s' = match error with
                             | Some _ => tasks s0
                             | None => default [] data
                             end).
  { intros s0 Hn. rewrite step_settle, Hn. simpl.
    eexists. split; [reflexivity |]. by destruct error. }
  intros Hn. split; [by apply Hany |].
  intros Hchanged.
  pose proof (setSession_keeps_pending s v n _ Hn) as Hn1.
  destruct (Hany _ Hn1) as (s2 & Hstep & Hsession & Htasks).
  exists (setSession v s), s2.
  split; [by unfold step; destruct (render s) |].
  split; [by apply session_setSession_changed |].
  split; [exact Hn1 |]. split; [exact Hstep |].
  split; [| exact Htasks].
  rewrite Hsession. by apply session_setSession_changed.
Qed.

(** C1, counterexample: the session changes from A to B while A's fetch
    is pending and B's tasks arrive; when A's fetch then succeeds, the
    list that showed B's task shows A's tasks, under B's session. *)
Lemma stale_fetch_overwrites_counterexample :
  ∃ s s',
    run mount Scenario.switch_A_to_B = Some s ∧
    session s = Some Sample.session_B ∧
    inflight s = [fetchTasks_await (js "A")] ∧
    tasks s = [Sample.fish] ∧
    step s Scenario.late_answer_for_A = Some s' ∧
    session s' = Some Sample.session_B ∧
    tasks s' = [Sample.wood; Sample.tent] ∧
    ¬ stale_fetch_discarded.
Proof.
  eexists _, _.
  split; [reflexivity |]. split; [reflexivity |]. split; [reflexivity |].
  split; [reflexivity |]. split; [reflexivity |]. split; [reflexivity |].
  split; [reflexivity |].
  intros Hclaim.
  pose (s := mkState (Some Sample.session_B) [] false [Sample.fish] []
                     [fetchTasks_await (js "A")] [] []).
  assert (Hbad : tasks (setTasks [Sample.wood; Sample.tent]
                          (set_inflight [] s)) = tasks s).
  { apply (Hclaim s 0%nat (js "A")
             (rows_reply (Some [Sample.wood; Sample.tent]) None)).
    - exists Scenario.switch_A_to_B. reflexivity.
    - reflexivity.
    - discriminate.
    - reflexivity. }
  discriminate Hbad.
Qed.

Lemma fetch_result_applied_any_session_witness :
  inflight (fetchTasks (js "A") Sample.signed_in) !! 0%nat
  = Some (fetchTasks_await (js "A")) ∧
  Object_is (session (fetchTasks (js "A") Sample.signed_in))
            (Some Sample.session_B) = false ∧
  ∃ s1 s2,
    step (fetchTasks (js "A") Sample.signed_in)
         (onAuthStateChange (Some Sample.session_B)) = Some s1 ∧
    step s1 Scenario.late_answer_for_A = Some s2 ∧
    session s2 = Some Sample.session_B ∧
    tasks s2 = [Sample.wood; Sample.tent].
Proof.
  split; [reflexivity |]. split; [reflexivity |].
  destruct (proj2 (fetch_result_applied_any_session
                     (fetchTasks (js "A") Sample.signed_in) 0 (js "A")
                     (Some Sample.session_B)
                     (Some [Sample.wood; Sample.tent]) None eq_refl)
              eq_refl)
    as (s1 & s2 & Hchange & _ & _ & Hsettle & Hsession & Htasks).
  exists s1, s2. split; [exact Hchange |]. split; [exact Hsettle |].
  split; [exact Hsession | exact Htasks].
Defined.

(** C8, as the source has it: when the session changes to one that
    carries a user identifier, a fetch for that user is sent and the
    change itself leaves the local list as it is; whenever that fetch is
    answered, at once or in any later state in which it is still pending,
    an answer without an error replaces the whole list by its rows and an
    answer with an error leaves the list as it is then.  When the session
    changes to none, or to one without a user identifier, the local list
    is set to empty then and no request is sent. *)
Theorem session_change_effect (s : AppState) (v : option Session.t) :
  Object_is (session s) v = false →
  step s (onAuthStateChange v) = Some (setSession v s) ∧
  session (setSession v s) = v ∧
  match truthy_user_id v with
  | Some userId =>
      inflight (setSession v s) = inflight s ++ [fetchTasks_await userId] ∧
      tasks (setSession v s) = tasks s ∧
      (∀ rows, ∃ s',
         step (setSession v s)
              (settle (length (inflight s)) (rows_reply (Some rows) None))
         = Some s' ∧
         tasks s' = rows ∧ session s' = v) ∧
      (∀ (s1 : AppState) (n : nat) data error,
         inflight s1 !! n = Some (fetchTasks_await userId) →
         ∃ s',
           step s1 (settle n (rows_reply data error)) = Some s' ∧
           session s' = session s1 ∧
           tasks s' = match error with
                      | Some _ => tasks s1
                      | None => default [] data
                      end)
  | None =>
      tasks (setSession v s) = [] ∧
      inflight (setSession v s) = inflight s
  end.
Proof.
  intros Hchanged.
  split; [by unfold step; destruct (render s) |].
  rewrite (setSession_changed s v Hchanged). unfold session_effect.
  change (session (setSessionState v s)) with v.
  destruct (truthy_user_id v) as [userId|]; [| done].
  split; [done |]. split; [done |]. split; [done |]. split.
  - intros rows. unfold fetchTasks.
    change (length (inflight s))
      with (length (inflight (setSessionState v s))).
    rewrite settle_last. simpl. eexists. done.
  - intros s1 n data error Hn. rewrite step_settle, Hn. simpl.
    eexists. split; [reflexivity |]. by destruct error.
Qed.

Lemma session_change_effect_witness :
  Object_is (session Sample.signed_in) None = false ∧
  tasks (setSession None Sample.signed_in) = [] ∧
  Object_is (session Sample.signed_in) (Some Sample.session_B) = false ∧
  inflight (setSession (Some Sample.session_B) Sample.signed_in)
  = [fetchTasks_await (js "B")].
Proof.
  split; [reflexivity |].
  split; [exact (proj1 (proj2 (proj2 (session_change_effect
                                        Sample.signed_in None eq_refl)))) |].
  split; [reflexivity |].
  exact (proj1 (proj2 (proj2 (session_change_effect
                                Sample.signed_in (Some Sample.session_B)
                                eq_refl)))).
Defined.

(** C8, counterexample: after the session has changed from A to B and
    B's fetch has failed, nothing is pending and the list still holds A's
    tasks; and after A has signed out, the late answer to A's fetch fills
    the list although there is no session. *)
Lemma session_change_keeps_list_counterexample :
  (∃ s, run mount Scenario.switch_then_fetch_fails = Some s ∧
        session s = Some Sample.session_B ∧
        inflight s = [] ∧
        tasks s = [Sample.wood; Sample.tent]) ∧
  (∃ s, run mount Scenario.sign_out_before_answer = Some s ∧
        session s = None ∧
        tasks s = [Sample.wood; Sample.tent]) ∧
  ¬ signed_out_list_empty.
Proof.
  split; [eexists; repeat split |].
  split; [eexists; repeat split |].
  intros Hclaim.
  pose (s := mkState None [] false [Sample.wood; Sample.tent] [] [] [] []).
  assert (Hbad : tasks s = []).
  { apply Hclaim; [| reflexivity].
    exists Scenario.sign_out_before_answer. reflexivity. }
  discriminate Hbad.
Qed.

(** ** Worked examples *)

Example trim_inner_space : JsString.trim (js "  a b  ") = js "a b".
Proof. reflexivity. Qed.

Example trim_blank : JsString.trim (js "   ") = js "".
Proof. reflexivity. Qed.

(** No-break space and ideographic space are trimmed too; the zero width
    space is not white space. *)
Example trim_unicode :
  JsString.trim [160; 12288; 97; 8203; 8232]%N = [97; 8203]%N.
Proof. reflexivity. Qed.

(** Section 8 of the specification: with [T1(completed=false)] listed, a
    confirmed [toggleTask(T1.id, false)] leaves [T1(completed=true)]. *)
Example toggle_scenario :
  run (mkState (Some Sample.session_A) [] false [Sample.tent] [] [] [] [])
      [click_toggleTask 0; settle 0 (error_reply None)]
  = Some (mkState (Some Sample.session_A) [] false
                  [Task.with_is_completed true Sample.tent] [] [] [] []).
Proof. reflexivity. Qed.

(** A second click before the first confirmation sends the same argument
    twice, and the flag ends at its negation. *)
Example toggle_double_click :
  tasks <$> run (mkState (Some Sample.session_A) [] false [Sample.tent] []
                        [] [] [])
              [click_toggleTask 0; click_toggleTask 0;
               settle 0 (error_reply None); settle 0 (error_reply None)]
  = Some [Task.with_is_completed true Sample.tent].
Proof. reflexivity. Qed.

(** The Add button is disabled on a blank title, and absent when signed
    out. *)
Example add_button_disabled :
  step (Sample.typing (js "  ")) click_addTask = None ∧
  step Sample.signed_out click_addTask = None.
Proof. split; reflexivity. Qed.

(** A promise that rejects is not caught by any of the actions. *)
Example rejection_unhandled :
  unhandled <$> step (deleteTask 1 Sample.signed_in)
                     (settle 0 (rejected Sample.failure))
  = Some [Sample.failure].
Proof. reflexivity. Qed.


(** * Further properties of the component *)

(** ** Runs of the event loop *)

Lemma run_app s trace1 trace2 :
  run s (trace1 ++ trace2) = s' ← run s trace1; run s' trace2.
Proof.
  revert s. induction trace1 as [|e trace1 IH]; intros s; [done |].
  cbn [run app]. destruct (step s e) as [s1|]; [apply IH | done].
Qed.

(** What holds on mount and is kept by every turn holds in every state
    the component can reach. *)
Lemma reachable_ind (P : AppState → Prop) :
  P mount →
  (∀ s e s', P s → step s e = Some s' → P s') →
  ∀ s, reachable s → P s.
Proof.
  intros Hmount Hstep s [trace Hrun]. revert Hrun.
  generalize mount Hmount. clear Hmount.
  induction trace as [|e trace IH]; intros s0 H0 Hrun.
  - by injection Hrun as <-.
  - cbn [run] in Hrun. destruct (step s0 e) as [s1|] eqn:He; [| done].
    eapply IH; [| exact Hrun]. by eapply Hstep.
Qed.

Lemma step_onAuthStateChange s v :
  step s (onAuthStateChange v) = Some (setSession v s).
Proof. unfold step. by destruct (render s). Qed.

Lemma truthy_user_id_nonempty se userId :
  truthy_user_id se = Some userId → userId ≠ [].
Proof.
  unfold truthy_user_id. destruct (session_user_id se) as [u|]; [| done].
  destruct u; simpl; [done |]. by intros [= <-].
Qed.

Lemma truthy_user_id_session se userId :
  truthy_user_id se = Some userId → se ≠ None.
Proof. by destruct se. Qed.

(** The session effect sends at most the fetch for the new session's
    user. *)
Lemma setSession_sends s v :
  inflight (setSession v s) = inflight s ∨
  ∃ userId, inflight (setSession v s) = inflight s ++ [fetchTasks_await userId] ∧
            Object_is (session s) (session (setSession v s)) = false ∧
            truthy_user_id (session (setSession v s)) = Some userId.
Proof.
  unfold setSession. destruct (Object_is (session s) v) eqn:Hsame;
    [by left |].
  unfold session_effect. change (session (setSessionState v s)) with v.
  destruct (truthy_user_id v) as [userId|] eqn:Hu; [| by left].
  right. exists userId. simpl. by rewrite Hsame, Hu.
Qed.

(** What one turn does to the queue of pending calls. *)
Lemma step_inflight (s : AppState) (e : Event) (s' : AppState) :
  step s e = Some s' →
  ∃ kept,
    (kept = inflight s ∨
     ∃ n r p, e = settle n r ∧ inflight s !! n = Some p ∧
              kept = delete n (inflight s)) ∧
    (inflight s' = kept ∨
     ∃ p, inflight s' = kept ++ [p] ∧ justified s s' p).
Proof.
  intros Hstep. destruct e.
  - (* onAuthStateChange *)
    rewrite step_onAuthStateChange in Hstep. injection Hstep as <-.
    exists (inflight s). split; [by left |].
    destruct (setSession_sends s session0) as [?|(u & ? & ? & ?)];
      [by left | right]. by exists (fetchTasks_await u).
  - (* change_email *)
    unfold step, render in Hstep. destruct (session s); [done |].
    injection Hstep as <-. exists (inflight s). split; by left.
  - unfold step, render in Hstep. destruct (session s) eqn:Hs; [done |].
    injection Hstep as <-. exists (inflight s). split; [by left | right].
    exists (signInWithOAuth_await "google"). simpl. tauto.
  - unfold step, render in Hstep. destruct (session s) eqn:Hs; [done |].
    injection Hstep as <-. exists (inflight s). split; [by left | right].
    exists (signInWithOAuth_await "facebook"). simpl. tauto.
  - unfold step, render in Hstep. destruct (session s) eqn:Hs; [done |].
    injection Hstep as <-. exists (inflight s). split; [by left | right].
    by exists (signInWithEmail_await (email s)).
  - unfold step, render in Hstep. destruct (session s) eqn:Hs; [| done].
    injection Hstep as <-. exists (inflight s). split; [by left | right].
    exists signOut_await. simpl. by rewrite Hs.
  - (* change_newTask *)
    unfold step, render in Hstep. destruct (session s); [| done].
    injection Hstep as <-. exists (inflight s). split; by left.
  - (* click_addTask *)
    unfold step, render in Hstep. destruct (session s) eqn:Hs; [| done].
    destruct (negb _) eqn:Hdis; [done |]. injection Hstep as <-.
    exists (inflight s). split; [by left |].
    unfold addTask. rewrite Hdis, Hs.
    destruct (truthy_user_id (Some t)) as [u|] eqn:Hu; [right | by left].
    exists (addTask_await (JsString.trim (newTask s)) u). simpl.
    rewrite Hs. repeat split; [done |].
    intros Hnil. by rewrite Hnil in Hdis.
  - (* click_toggleTask *)
    unfold step, render in Hstep. destruct (session s) eqn:Hs; [| done].
    destruct (tasks s !! i) as [task|] eqn:Hi; [| done].
    injection Hstep as <-. exists (inflight s). split; [by left | right].
    exists (toggleTask_await (Task.id task) (Task.is_completed task)).
    simpl. rewrite Hs. split; [done |]. split; [done |]. by exists i, task.
  - (* click_deleteTask *)
    unfold step, render in Hstep. destruct (session s) eqn:Hs; [| done].
    destruct (tasks s !! i) as [task|] eqn:Hi; [| done].
    injection Hstep as <-. exists (inflight s). split; [by left | right].
    exists (deleteTask_await (Task.id task)).
    simpl. rewrite Hs. split; [done |]. split; [done |]. by exists i, task.
  - (* settle *)
    rewrite step_settle in Hstep.
    destruct (inflight s !! n) as [p|] eqn:Hn; [| done].
    cbn [mbind option_bind] in Hstep.
    exists (delete n (inflight s)). split; [right; by exists n, r, p |].
    set (s0 := set_inflight (delete n (inflight s)) s) in *.
    destruct r as [v verr|err|data err|data err|reason];
      [| | | | injection Hstep as <-; by left].
    + destruct p; try discriminate Hstep. injection Hstep as <-.
      destruct (setSession_sends s0 v) as [?|(u & ? & ? & ?)];
        [by left | right]. by exists (fetchTasks_await u).
    + destruct p; try discriminate Hstep; injection Hstep as <-; left;
        try done; by destruct err.
    + destruct p; try discriminate Hstep. injection Hstep as <-. left.
      by destruct err.
    + destruct p; try discriminate Hstep. injection Hstep as <-. left.
      by destruct err, data.
Qed.

(** X2. One turn of the event loop sends at most one request, and only a
    justified one: a fetch only for the user of the session that has just
    become current, an insert only for the current session's user and
    with the trimmed, non-empty title, an update or delete only for a
    record in the local list and only while signed in, sign-in requests
    only while signed out, and never a second [getSession].  The other
    pending calls stay, except the one an answer settles. *)
Theorem step_sends (s : AppState) (e : Event) (s' : AppState) :
  step s e = Some s' →
  ∃ kept,
    (kept = inflight s ∨
     ∃ n r p, e = settle n r ∧ inflight s !! n = Some p ∧
              kept = delete n (inflight s)) ∧
    (inflight s' = kept ∨
     ∃ p, inflight s' = kept ++ [p] ∧ justified s s' p).
Proof.
  intros Hstep.
  destruct (step_inflight s e s' Hstep) as (kept & Hkept & Hsent).
  exists kept. split; [| exact Hsent].
  destruct Hkept as [->|(n & r & p & He & Hn & ->)]; [by left |].
  right. by exists n, r, p.
Qed.

Lemma step_sends_witness :
  step (Sample.typing (js " boil water ")) click_addTask
  = Some (addTask (Sample.typing (js " boil water "))) ∧
  ∃ kept,
    (kept = [] ∨ ∃ n r p, click_addTask = settle n r ∧
                          inflight (Sample.typing (js " boil water ")) !! n
                          = Some p ∧ kept = delete n []) ∧
    (inflight (addTask (Sample.typing (js " boil water "))) = kept ∨
     ∃ p, inflight (addTask (Sample.typing (js " boil water ")))
          = kept ++ [p] ∧
          justified (Sample.typing (js " boil water "))
                    (addTask (Sample.typing (js " boil water "))) p).
Proof.
  split; [reflexivity |].
  exact (step_sends (Sample.typing (js " boil water ")) click_addTask
           (addTask (Sample.typing (js " boil water "))) eq_refl).
Defined.

(** ** The title an insert carries *)

Section trimmed.
Import JsString.

(** [trimStart] drops a run of white space from the front. *)
Lemma trimStart_split s :
  ∃ lead, s = lead ++ trimStart s ∧ forallb is_white_space lead = true.
Proof.
  induction s as [|c r (lead & Hr & Hlead)]; [by exists [] |].
  simpl. destruct (is_white_space c) eqn:Hc; [| by exists []].
  exists (c :: lead). simpl. rewrite Hc, Hlead. split; [| done].
  by rewrite <- Hr.
Qed.

Lemma trimStart_fixed s :
  match s with [] => True | c :: _ => is_white_space c = false end →
  trimStart s = s.
Proof. destruct s as [|c r]; simpl; [done |]. by intros ->. Qed.

Lemma trimStart_starts s :
  match trimStart s with
  | [] => True
  | c :: _ => is_white_space c = false
  end.
Proof.
  destruct (trimStart s) as [|c r] eqn:Hs; [done |].
  by eapply trimStart_head.
Qed.

(** Trimming takes white space off both ends and nothing else. *)
Lemma trim_split s :
  ∃ lead trail, s = lead ++ trim s ++ trail ∧
                forallb is_white_space lead = true ∧
                forallb is_white_space trail = true.
Proof.
  unfold trim, trimEnd.
  destruct (trimStart_split s) as (lead & Hs & Hlead).
  destruct (trimStart_split (rev (trimStart s))) as (l2 & Hr & Hl2).
  exists lead, (rev l2). split; [| split; [done | by rewrite forallb_rev]].
  rewrite <- rev_app_distr, <- Hr, rev_involutive. exact Hs.
Qed.

Lemma trim_starts s :
  match trim s with [] => True | c :: _ => is_white_space c = false end.
Proof.
  unfold trim, trimEnd.
  pose proof (trimStart_starts s) as Hhead.
  destruct (trimStart_split (rev (trimStart s))) as (l2 & Hr & Hl2).
  apply (f_equal (@rev N)) in Hr.
  rewrite rev_involutive, rev_app_distr in Hr.
  destruct (rev (trimStart (rev (trimStart s)))) as [|c r]; [done |].
  rewrite Hr in Hhead. exact Hhead.
Qed.

Lemma trim_ends s :
  match rev (trim s) with
  | [] => True
  | c :: _ => is_white_space c = false
  end.
Proof.
  unfold trim, trimEnd. rewrite rev_involutive. apply trimStart_starts.
Qed.

Lemma trim_no_outer_space s : no_outer_space (trim s).
Proof.
  split; intros c r Heq.
  - pose proof (trim_starts s) as H. by rewrite Heq in H.
  - pose proof (trim_ends s) as H. rewrite Heq, rev_app_distr in H.
    exact H.
Qed.

(** Trimming a trimmed string changes nothing. *)
Lemma trim_idempotent s : trim (trim s) = trim s.
Proof.
  pose proof (trim_starts s) as Hhead. pose proof (trim_ends s) as Hlast.
  unfold trim at 1. unfold trimEnd.
  rewrite (trimStart_fixed (trim s) Hhead).
  rewrite (trimStart_fixed (rev (trim s)) Hlast).
  apply rev_involutive.
Qed.
End trimmed.

Lemma justified_well_sent s s' p : justified s s' p → well_sent p.
Proof.
  destruct p; simpl; try done.
  - tauto.
  - intros [_ Hu]. by eapply truthy_user_id_nonempty.
  - intros (Hu & -> & Hne). split; [by eapply truthy_user_id_nonempty |].
    split; [done | apply trim_no_outer_space].
Qed.

Lemma filter_sublist_mono {A} (P : A → Prop) `{!∀ x, Decision (P x)} l1 l2 :
  sublist l1 l2 → sublist (filter P l1) (filter P l2).
Proof.
  induction 1 as [|x l1 l2 _ IH|x l1 l2 _ IH]; [constructor | |].
  - rewrite !filter_cons. destruct (decide (P x)); [by constructor | done].
  - rewrite filter_cons. destruct (decide (P x)); [by constructor | done].
Qed.

(** X1. In every state the component can reach, each insert in flight
    carries a title that is not empty and has no white space at either
    end, together with a non-empty user identifier; each fetch in flight
    is for a non-empty user identifier; each OAuth sign-in is for google
    or facebook; and [getSession] is pending at most once. *)
Theorem reachable_requests_well_formed (s : AppState) :
  reachable s →
  Forall well_sent (inflight s) ∧
  (length (filter (λ p, p = getSession_then) (inflight s)) ≤ 1)%nat.
Proof.
  revert s. apply reachable_ind.
  - split; [by repeat constructor | simpl; lia].
  - intros s e s' [Hall Hone] Hstep.
    destruct (step_inflight s e s' Hstep) as (kept & Hkept & Hsent).
    assert (Hall' : Forall well_sent kept).
    { destruct Hkept as [->|(n & r & p & _ & _ & ->)]; [done |].
      by apply Forall_delete. }
    assert (Hone' : (length (filter (λ p, p = getSession_then) kept) ≤ 1)%nat).
    { destruct Hkept as [->|(n & r & p & _ & _ & ->)]; [done |].
      etransitivity; [| exact Hone].
      apply sublist_length, filter_sublist_mono, sublist_delete. }
    destruct Hsent as [->|(p & -> & Hp)]; [done |].
    split.
    + apply Forall_app. split; [done |]. constructor; [| done].
      by eapply justified_well_sent.
    + rewrite filter_app, length_app.
      rewrite (filter_cons_False _ p []), filter_nil; [simpl; lia |].
      intros ->. exact Hp.
Qed.

Lemma reachable_requests_well_formed_witness :
  reachable (addTask (Sample.typing (js " boil water "))) ∧
  Forall well_sent (inflight (addTask (Sample.typing (js " boil water ")))).
Proof.
  assert (Hreach : reachable (addTask (Sample.typing (js " boil water ")))).
  { exists [ settle 0 (session_reply (Some Sample.session_A) None);
             settle 0 (rows_reply (Some [Sample.wood; Sample.tent]) None);
             change_newTask (js " boil water ");
             click_addTask ].
    reflexivity. }
  split; [exact Hreach |].
  exact (proj1 (reachable_requests_well_formed _ Hreach)).
Defined.

(** ** What each turn can change *)

(** Case analysis on a turn of the event loop: every way [step] can
    produce a state. *)
Ltac step_cases Hstep :=
  unfold step, render, resume, setSession, session_effect, addTask,
    signInWithEmail_resume, signOut_resume, fetchTasks_resume,
    addTask_resume, toggleTask_resume, deleteTask_resume in Hstep;
  repeat (case_match; simplify_option_eq); simplify_option_eq.

Lemma step_otpSent s e s' :
  step s e = Some s' → otpSent s = true → otpSent s' = true.
Proof. intros Hstep Hsent. step_cases Hstep; done. Qed.

(** X3. The confirmation flag [otpSent] is never reset: once a link has
    been reported sent, every later state has it set, whatever happens in
    between (new addresses typed, failed sign-in attempts, sign-in and
    sign-out), so the confirmation line is on the sign-in screen whenever
    that screen is shown again. *)
Theorem otpSent_never_reset (s : AppState) (trace : list Event) (s' : AppState) :
  run s trace = Some s' →
  otpSent s = true →
  otpSent s' = true ∧
  (session s' = None → render s' = sign_in_view (email s') true).
Proof.
  intros Hrun Hsent.
  assert (Hsent' : otpSent s' = true).
  { revert s Hrun Hsent. induction trace as [|e trace IH]; intros s Hrun Hs.
    - by injection Hrun as <-.
    - cbn [run] in Hrun. destruct (step s e) as [s1|] eqn:He; [| done].
      apply (IH s1 Hrun). by eapply step_otpSent. }
  split; [exact Hsent' |].
  intros Hout. unfold render. by rewrite Hout, Hsent'.
Qed.

Lemma otpSent_never_reset_witness :
  run (setOtpSent true Sample.signed_out)
      [ change_email (js "b@x.com"); click_signInWithEmail;
        settle 0 (error_reply (Some Sample.failure));
        onAuthStateChange (Some Sample.session_A);
        onAuthStateChange None ]
  = Some (mkState None (js "b@x.com") true [] []
                  [fetchTasks_await (js "A")]
                  [("Error sending magic link:"%string,
                    arg_string (js "request failed"))] []) ∧
  otpSent (setOtpSent true Sample.signed_out) = true ∧
  render (mkState None (js "b@x.com") true [] []
                  [fetchTasks_await (js "A")]
                  [("Error sending magic link:"%string,
                    arg_string (js "request failed"))] [])
  = sign_in_view (js "b@x.com") true.
Proof.
  split; [reflexivity |]. split; [reflexivity |].
  exact (proj2 (otpSent_never_reset
                  (setOtpSent true Sample.signed_out)
                  [ change_email (js "b@x.com"); click_signInWithEmail;
                    settle 0 (error_reply (Some Sample.failure));
                    onAuthStateChange (Some Sample.session_A);
                    onAuthStateChange None ]
                  (mkState None (js "b@x.com") true [] []
                     [fetchTasks_await (js "A")]
                     [("Error sending magic link:"%string,
                       arg_string (js "request failed"))] [])
                  eq_refl eq_refl) eq_refl).
Defined.

(** X4. Only the auth provider changes the session: it changes on an
    [onAuthStateChange] notification or on the answer to [getSession],
    and on no other event.  In particular no sign-in action and no
    sign-out action, nor any answer to them, sets [session]. *)
Theorem session_changes_only_by_provider
    (s : AppState) (e : Event) (s' : AppState) :
  step s e = Some s' →
  session s' ≠ session s →
  (∃ v, e = onAuthStateChange v ∧ session s' = v) ∨
  (∃ n v error, e = settle n (session_reply v error) ∧
                inflight s !! n = Some getSession_then ∧ session s' = v).
Proof.
  intros Hstep Hchanged. destruct e;
    try (exfalso; apply Hchanged; step_cases Hstep; done).
  - left. exists session0. split; [done |].
    rewrite step_onAuthStateChange in Hstep. injection Hstep as <-.
    unfold setSession in *. destruct (Object_is _ _); [done |].
    unfold session_effect. simpl. by destruct (truthy_user_id session0).
  - right. rewrite step_settle in Hstep.
    destruct (inflight s !! n) as [p|] eqn:Hn; [| done].
    cbn [mbind option_bind] in Hstep.
    destruct r as [v verr| | | |]; destruct p;
      try (exfalso; apply Hchanged; step_cases Hstep; done).
    exists n, v, verr. split; [done |]. split; [done |].
    simpl in Hstep. injection Hstep as <-.
    unfold setSession in *. destruct (Object_is _ _); [done |].
    unfold session_effect. simpl. by destruct (truthy_user_id v).
Qed.

Lemma session_changes_only_by_provider_witness :
  step Sample.signed_in (onAuthStateChange None)
  = Some (setSession None Sample.signed_in) ∧
  session (setSession None Sample.signed_in) ≠ session Sample.signed_in ∧
  ((∃ v, onAuthStateChange None = onAuthStateChange v ∧
         session (setSession None Sample.signed_in) = v) ∨
   (∃ n v error, onAuthStateChange None = settle n (session_reply v error) ∧
                 inflight Sample.signed_in !! n = Some getSession_then ∧
                 session (setSession None Sample.signed_in) = v)).
Proof.
  split; [reflexivity |]. split; [discriminate |].
  exact (session_changes_only_by_provider Sample.signed_in
           (onAuthStateChange None) (setSession None Sample.signed_in)
           eq_refl ltac:(discriminate)).
Defined.

(** ** What gets logged *)

Lemma setSession_console v s : console (setSession v s) = console s.
Proof.
  unfold setSession, session_effect. destruct (Object_is _ _); [done |].
  simpl. by destruct (truthy_user_id v).
Qed.

Lemma snoc_neq {A} (l : list A) x : l ++ [x] ≠ l.
Proof.
  intros H. apply (f_equal length) in H. rewrite length_app in H.
  simpl in H. lia.
Qed.

(** How an answer changes the console: not at all when it carries no
    error or answers a call that does not read it, by one entry
    otherwise. *)
Lemma settle_console s n r p s' :
  inflight s !! n = Some p →
  step s (settle n r) = Some s' →
  (console s' = console s ∧
   (reply_error r = None ∨ reads_error p = false)) ∨
  (∃ entry err, console s' = console s ++ [entry] ∧
                reply_error r = Some err ∧ reads_error p = true).
Proof.
  intros Hn Hstep. rewrite step_settle, Hn in Hstep.
  cbn [mbind option_bind] in Hstep.
  destruct r as [v [verr|]|[err|]|data [err|]|data [err|]|reason], p;
    simpl in Hstep; try discriminate Hstep; injection Hstep as <-; simpl;
    first [ right; eexists _, _; split; [reflexivity | split; reflexivity]
          | left; split;
            [ first [ by rewrite setSession_console | by destruct data
                    | reflexivity ]
            | first [by left | by right] ] ].
Qed.

(** X5. The console receives an entry exactly when the backend answers
    with an error a pending call that reads the error of its answer:
    every call but [getSession] and the OAuth sign-ins, whose errors are
    dropped unread.  Then it is one entry, appended.  No other event
    writes to the console. *)
Theorem errors_logged_where_read (s : AppState) (e : Event) (s' : AppState) :
  step s e = Some s' →
  (console s' = console s ∨ ∃ entry, console s' = console s ++ [entry]) ∧
  (console s' ≠ console s ↔
   ∃ n r p err, e = settle n r ∧ inflight s !! n = Some p ∧
                reply_error r = Some err ∧ reads_error p = true).
Proof.
  intros Hstep.
  assert (Hcase : (∃ n r, e = settle n r) ∨ ¬ ∃ n r, e = settle n r).
  { destruct e; try (right; by intros (? & ? & [=])).
    left. by eexists _, _. }
  destruct Hcase as [(n & r & ->)|Hother].
  - destruct (inflight s !! n) as [p|] eqn:Hn;
      [| by rewrite step_settle, Hn in Hstep].
    destruct (settle_console s n r p s' Hn Hstep)
      as [[Hsame Hwhy]|(entry & err & Hlog & Herr & Hp)].
    + split; [by left |]. split; [done |].
      intros (n' & r' & p' & err & [= <- <-] & Hn' & Herr & Hp').
      rewrite Hn in Hn'. injection Hn' as <-. exfalso.
      destruct Hwhy as [Hnone|Hunread]; congruence.
    + split; [right; by exists entry |]. split.
      * intros _. by exists n, r, p, err.
      * intros _. rewrite Hlog. apply snoc_neq.
  - assert (Hsame : console s' = console s).
    { destruct e; try (step_cases Hstep; done).
      exfalso. apply Hother. by eexists _, _. }
    split; [by left |]. split; [done |].
    intros (n & r & _ & _ & -> & _). exfalso. apply Hother. by eexists _, _.
Qed.

Lemma errors_logged_where_read_witness :
  step mount (settle 0 (session_reply None (Some Sample.failure)))
  = Some (set_inflight [] mount) ∧
  step (signInWithGoogle Sample.signed_out)
       (settle 0 (error_reply (Some Sample.failure)))
  = Some Sample.signed_out ∧
  step (signOut Sample.signed_in)
       (settle 0 (error_reply (Some Sample.failure)))
  = Some (console_error "Sign-out error:" (arg_string (js "request failed"))
                        Sample.signed_in) ∧
  (console (console_error "Sign-out error:"
                          (arg_string (js "request failed")) Sample.signed_in)
   = console (signOut Sample.signed_in) ∨
   ∃ entry,
     console (console_error "Sign-out error:"
                            (arg_string (js "request failed")) Sample.signed_in)
     = console (signOut Sample.signed_in) ++ [entry]).
Proof.
  split; [reflexivity |]. split; [reflexivity |]. split; [reflexivity |].
  exact (proj1 (errors_logged_where_read
                  (signOut Sample.signed_in)
                  (settle 0 (error_reply (Some Sample.failure)))
                  (console_error "Sign-out error:"
                     (arg_string (js "request failed")) Sample.signed_in)
                  eq_refl)).
Defined.

(** ** Signing out (lines 58-61 with 24-26 and 32-38) *)

(** X6. Pressing Sign out and getting the provider's answer, with or
    without an error, leaves the user on the task screen with the session
    and the list as they were; an error only adds its message to the
    console.  When the provider's notification of a null session then
    arrives, the list is emptied and the sign-in screen comes back with
    the email field and the confirmation as they were left. *)
Theorem signOut_waits_for_notification (s : AppState) (error : option Error) :
  session s ≠ None →
  ∃ s1,
    run s [click_signOut; settle (length (inflight s)) (error_reply error)]
    = Some s1 ∧
    session s1 = session s ∧ tasks s1 = tasks s ∧
    render s1 = render s ∧ inflight s1 = inflight s ∧
    console s1 = match error with
                 | Some e => console s ++ [("Sign-out error:"%string,
                                            arg_string (message e))]
                 | None => console s
                 end ∧
    ∃ s2,
      step s1 (onAuthStateChange None) = Some s2 ∧
      session s2 = None ∧ tasks s2 = [] ∧ inflight s2 = inflight s ∧
      render s2 = sign_in_view (email s) (otpSent s).
Proof.
  intros Hin. destruct (session s) as [se|] eqn:Hs; [| done].
  assert (Hclick : step s click_signOut = Some (signOut s)).
  { unfold step, render. by rewrite Hs. }
  exists (signOut_resume error s). cbn [run]. rewrite Hclick.
  cbn [mbind option_bind]. unfold signOut. rewrite settle_last. simpl.
  split; [done |].
  assert (Hframe : session (signOut_resume error s) = session s ∧
                   tasks (signOut_resume error s) = tasks s ∧
                   email (signOut_resume error s) = email s ∧
                   otpSent (signOut_resume error s) = otpSent s ∧
                   newTask (signOut_resume error s) = newTask s ∧
                   inflight (signOut_resume error s) = inflight s)
    by (by destruct error).
  destruct Hframe as (Hse & Hta & Hem & Hot & Hnt & Hinf).
  split; [by rewrite Hse |]. split; [exact Hta |].
  split; [unfold render; by rewrite Hse, Hta, Hnt, Hs |].
  split; [exact Hinf |]. split; [by destruct error |].
  exists (setSession None (signOut_resume error s)).
  split; [apply step_onAuthStateChange |].
  unfold setSession. rewrite Hse, Hs. simpl.
  unfold session_effect. simpl.
  split; [done |]. split; [done |]. split; [exact Hinf |].
  unfold render. simpl. by rewrite Hem, Hot.
Qed.

Lemma signOut_waits_for_notification_witness :
  session Sample.signed_in ≠ None ∧
  ∃ s1,
    run Sample.signed_in [click_signOut; settle 0 (error_reply None)]
    = Some s1 ∧
    tasks s1 = [Sample.wood; Sample.tent] ∧
    ∃ s2, step s1 (onAuthStateChange None) = Some s2 ∧ tasks s2 = [].
Proof.
  split; [discriminate |].
  destruct (signOut_waits_for_notification Sample.signed_in None
              ltac:(discriminate))
    as (s1 & Hrun & _ & Htasks & _ & _ & _ & s2 & Hstep & _ & Hnil & _).
  exists s1. split; [exact Hrun |]. split; [exact Htasks |].
  exists s2. split; [exact Hstep | exact Hnil].
Defined.

(** ** The input after an insert (lines 86-91) *)

(** X7. What the input holds after the answer to an insert does not
    depend on what was typed while the insert was pending: a confirmed
    insert empties it, also when its text is no longer the title that was
    sent; an error, or an answer without a row, leaves the text that is
    there.  The task list is the old one with the row in front in the
    first case and the old one otherwise. *)
Theorem input_after_insert
    (s : AppState) (userId : jsstring) (typed : jsstring)
    (data : option Task.t) (error : option Error) :
  truthy_user_id (session s) = Some userId →
  JsString.trim (newTask s) ≠ [] →
  ∃ s',
    run s [ click_addTask; change_newTask typed;
            settle (length (inflight s)) (row_reply data error) ]
    = Some s' ∧
    inflight s' = inflight s ∧
    match error, data with
    | None, Some d => newTask s' = [] ∧ tasks s' = d :: tasks s
    | _, _ => newTask s' = typed ∧ tasks s' = tasks s
    end.
Proof.
  intros Hu Htitle.
  assert (Hin : session s ≠ None) by (by eapply truthy_user_id_session).
  destruct (session s) as [se|] eqn:Hs; [| done].
  assert (Hclick : step s click_addTask = Some (addTask s)).
  { unfold step, render. rewrite Hs.
    destruct (JsString.trim (newTask s)); [done | reflexivity]. }
  rewrite <- Hs in Hu. rewrite (addTask_sends s userId Hu Htitle) in Hclick.
  set (p := addTask_await (JsString.trim (newTask s)) userId) in *.
  assert (Htype : step (await p s) (change_newTask typed)
                  = Some (await p (setNewTask typed s))).
  { unfold step, render. simpl. by rewrite Hs. }
  cbn [run]. rewrite Hclick. cbn [mbind option_bind]. rewrite Htype.
  cbn [mbind option_bind].
  change (length (inflight s)) with (length (inflight (setNewTask typed s))).
  rewrite settle_last. subst p. simpl.
  eexists. split; [reflexivity |].
  destruct error as [e|]; [done |]. by destruct data.
Qed.

Lemma input_after_insert_witness :
  truthy_user_id (session (Sample.typing (js "boil water")))
  = Some (js "A") ∧
  JsString.trim (newTask (Sample.typing (js "boil water"))) ≠ [] ∧
  ∃ s',
    run (Sample.typing (js "boil water"))
        [ click_addTask; change_newTask (js "dry socks");
          settle 0 (row_reply (Some Sample.water) None) ] = Some s' ∧
    newTask s' = [] ∧
    tasks s' = [Sample.water; Sample.wood; Sample.tent].
Proof.
  split; [reflexivity |]. split; [discriminate |].
  destruct (input_after_insert (Sample.typing (js "boil water")) (js "A")
              (js "dry socks") (Some Sample.water) None
              eq_refl ltac:(discriminate))
    as (s' & Hrun & _ & Hinput & Htasks).
  exists s'. split; [exact Hrun |]. split; [exact Hinput | exact Htasks].
Defined.

(** ** Operations one after the other *)

Lemma click_deleteTask_calls s (i : nat) t :
  session s ≠ None → tasks s !! i = Some t →
  step s (click_deleteTask i) = Some (deleteTask (Task.id t) s).
Proof.
  intros Hs Hi. unfold step, render.
  destruct (session s); [| done]. by rewrite Hi.
Qed.

Lemma click_addTask_calls s :
  session s ≠ None → JsString.trim (newTask s) ≠ [] →
  step s click_addTask = Some (addTask s).
Proof.
  intros Hs Ht. unfold step, render. destruct (session s); [| done].
  by destruct (JsString.trim (newTask s)).
Qed.

(** X8. Adding a task and deleting it again gives back the list there
    was, provided the store gave the new row an identifier no listed row
    has: Add, the store's row, Delete on the first item, the store's
    confirmation.  Only the input differs from the start: it is empty. *)
Theorem add_then_delete_restores
    (s : AppState) (userId : jsstring) (d : Task.t) :
  truthy_user_id (session s) = Some userId →
  JsString.trim (newTask s) ≠ [] →
  Forall (λ t, Task.id t ≠ Task.id d) (tasks s) →
  run s [ click_addTask;
          settle (length (inflight s)) (row_reply (Some d) None);
          click_deleteTask 0;
          settle (length (inflight s)) (error_reply None) ]
  = Some (setNewTask [] s).
Proof.
  intros Hu Htitle Hfresh.
  assert (Hin : session s ≠ None) by (by eapply truthy_user_id_session).
  cbn [run]. rewrite (click_addTask_calls s Hin Htitle).
  cbn [mbind option_bind]. rewrite (addTask_sends s userId Hu Htitle).
  rewrite settle_last.
  set (s1 := setNewTask [] (setTasks (d :: tasks s) s)).
  change (resume _ (row_reply (Some d) None) s) with (Some s1).
  cbn [mbind option_bind].
  rewrite (click_deleteTask_calls s1 0 d Hin eq_refl).
  cbn [mbind option_bind]. unfold deleteTask.
  change (length (inflight s)) with (length (inflight s1)).
  rewrite settle_last. simpl. unfold delete_in.
  rewrite filter_cons, decide_False by (by intros ?).
  fold (delete_in (Task.id d) (tasks s)).
  rewrite (delete_in_absent _ _ Hfresh). by destruct s.
Qed.

Lemma add_then_delete_restores_witness :
  truthy_user_id (session (Sample.typing (js "boil water")))
  = Some (js "A") ∧
  Forall (λ t, Task.id t ≠ Task.id Sample.water)
         (tasks (Sample.typing (js "boil water"))) ∧
  run (Sample.typing (js "boil water"))
      [ click_addTask; settle 0 (row_reply (Some Sample.water) None);
        click_deleteTask 0; settle 0 (error_reply None) ]
  = Some Sample.signed_in.
Proof.
  assert (Hfresh : Forall (λ t, Task.id t ≠ Task.id Sample.water)
                          (tasks (Sample.typing (js "boil water")))).
  { by repeat constructor. }
  split; [reflexivity |]. split; [exact Hfresh |].
  exact (add_then_delete_restores (Sample.typing (js "boil water"))
           (js "A") Sample.water eq_refl ltac:(discriminate) Hfresh).
Defined.

(** Settling the call sent before the last one. *)
Lemma settle_earlier p q r s :
  step (await q (await p s)) (settle (length (inflight s)) r)
  = resume p r (await q s).
Proof.
  rewrite step_settle.
  change (inflight (await q (await p s))) with ((inflight s ++ [p]) ++ [q]).
  rewrite <- (assoc_L (++)), lookup_app_r, Nat.sub_diag by lia.
  cbn [app lookup list_lookup mbind option_bind]. f_equal.
  unfold await, set_inflight. simpl. f_equal.
  induction (inflight s) as [|x l IH]; simpl; [done | by rewrite IH].
Qed.

Lemma delete_in_idempotent id prev :
  delete_in id (delete_in id prev) = delete_in id prev.
Proof.
  apply delete_in_absent, Forall_forall. intros t Ht.
  by apply delete_in_elem_of in Ht as [_ ?].
Qed.

(** X9. A second press on the same button before the first answer
    arrives changes nothing more once both are confirmed: two presses on
    an item's toggle button leave the list as one press does (the flag is
    set to the same value twice, not flipped back), and so do two presses
    on its delete button. *)
Theorem double_click_as_single (s : AppState) (i : nat) (t : Task.t) :
  session s ≠ None →
  tasks s !! i = Some t →
  let n := length (inflight s) in
  let ok := settle n (error_reply None) in
  run s [click_toggleTask i; click_toggleTask i; ok; ok]
  = run s [click_toggleTask i; ok] ∧
  run s [click_toggleTask i; ok]
  = Some (setTasks (toggle_in (Task.id t) (Task.is_completed t) (tasks s)) s) ∧
  run s [click_deleteTask i; click_deleteTask i; ok; ok]
  = run s [click_deleteTask i; ok] ∧
  run s [click_deleteTask i; ok]
  = Some (setTasks (delete_in (Task.id t) (tasks s)) s).
Proof.
  intros Hin Hi n ok.
  assert (Htoggle : run s [click_toggleTask i; ok]
            = Some (setTasks (toggle_in (Task.id t) (Task.is_completed t)
                                        (tasks s)) s))
    by exact (click_toggleTask_confirmed s i t Hin Hi).
  assert (Hdelete : run s [click_deleteTask i; ok]
            = Some (setTasks (delete_in (Task.id t) (tasks s)) s)).
  { cbn [run]. rewrite (click_deleteTask_calls s i t Hin Hi).
    cbn [mbind option_bind]. unfold deleteTask. subst ok n.
    by rewrite settle_last. }
  split; [| split; [exact Htoggle | split; [| exact Hdelete]]].
  - rewrite Htoggle. cbn [run].
    rewrite (click_toggleTask_calls s i t Hin Hi). cbn [mbind option_bind].
    set (p := toggleTask_await (Task.id t) (Task.is_completed t)).
    assert (Hagain : step (toggleTask (Task.id t) (Task.is_completed t) s)
                          (click_toggleTask i)
                     = Some (await p (await p s))).
    { by apply (click_toggleTask_calls (await p s) i t). }
    rewrite Hagain. cbn [mbind option_bind].
    assert (Hfirst : step (await p (await p s)) ok
                     = Some (await p (toggleTask_resume (Task.id t)
                                        (Task.is_completed t) None s)))
      by (subst ok n; by rewrite settle_earlier).
    rewrite Hfirst. cbn [mbind option_bind]. subst ok n.
    change (length (inflight s))
      with (length (inflight (toggleTask_resume (Task.id t)
                                (Task.is_completed t) None s))).
    rewrite settle_last. simpl. by rewrite toggle_in_same_argument.
  - rewrite Hdelete. cbn [run].
    rewrite (click_deleteTask_calls s i t Hin Hi). cbn [mbind option_bind].
    set (p := deleteTask_await (Task.id t)).
    assert (Hagain : step (deleteTask (Task.id t) s) (click_deleteTask i)
                     = Some (await p (await p s))).
    { by apply (click_deleteTask_calls (await p s) i t). }
    rewrite Hagain. cbn [mbind option_bind].
    assert (Hfirst : step (await p (await p s)) ok
                     = Some (await p (deleteTask_resume (Task.id t) None s)))
      by (subst ok n; by rewrite settle_earlier).
    rewrite Hfirst. cbn [mbind option_bind]. subst ok n.
    change (length (inflight s))
      with (length (inflight (deleteTask_resume (Task.id t) None s))).
    rewrite settle_last. simpl. by rewrite delete_in_idempotent.
Qed.

Lemma double_click_as_single_witness :
  session Sample.signed_in ≠ None ∧
  tasks Sample.signed_in !! 1%nat = Some Sample.tent ∧
  run Sample.signed_in
      [ click_toggleTask 1; click_toggleTask 1;
        settle 0 (error_reply None); settle 0 (error_reply None) ]
  = run Sample.signed_in [click_toggleTask 1; settle 0 (error_reply None)].
Proof.
  split; [discriminate |]. split; [reflexivity |].
  exact (proj1 (double_click_as_single Sample.signed_in 1 Sample.tent
                  ltac:(discriminate) eq_refl)).
Defined.

(** ** Confirmations in either order *)

Lemma delete_delete_le {A} (l : list A) (i j : nat) :
  (i ≤ j)%nat → delete j (delete i l) = delete i (delete (S j) l).
Proof.
  revert i j. induction l as [|x l IH]; intros i j Hij; [done |].
  destruct i as [|i]; [done |].
  destruct j as [|j]; [lia |].
  simpl. f_equal. apply IH. lia.
Qed.

Lemma delete_in_toggle_in id' id b prev :
  delete_in id' (toggle_in id b prev) = toggle_in id b (delete_in id' prev).
Proof.
  unfold delete_in, toggle_in.
  induction prev as [|t prev IH]; [done |].
  cbn [map]. rewrite !filter_cons.
  destruct (decide (Task.id t = id)) as [Heq|Hne]; simpl;
    (destruct (decide (Task.id t ≠ id')); [cbn [map] | done]).
  - rewrite decide_True by done. by f_equal.
  - rewrite decide_False by done. by f_equal.
Qed.

Lemma delete_in_delete_in id id' prev :
  delete_in id (delete_in id' prev) = delete_in id' (delete_in id prev).
Proof.
  unfold delete_in. induction prev as [|t prev IH]; [done |].
  rewrite !filter_cons.
  destruct (decide (Task.id t ≠ id')), (decide (Task.id t ≠ id));
    rewrite ?filter_cons, ?decide_True, ?decide_False by done;
    by rewrite ?IH.
Qed.

Lemma toggle_in_toggle_in id b id' b' prev :
  id ≠ id' ∨ b = b' →
  toggle_in id b (toggle_in id' b' prev)
  = toggle_in id' b' (toggle_in id b prev).
Proof.
  intros Hind. unfold toggle_in. rewrite !map_map. apply map_ext.
  intros t.
  repeat (case_decide; simpl in *); try done; try congruence.
  destruct Hind as [Hne| ->]; [congruence | done].
Qed.

Lemma on_confirm_commute p q prev :
  independent p q = true →
  on_confirm p (on_confirm q prev) = on_confirm q (on_confirm p prev).
Proof.
  destruct p, q; simpl; try done; intros Hind.
  - apply toggle_in_toggle_in.
    apply orb_true_iff in Hind as [H|H];
      apply bool_decide_eq_true in H; [by left | by right].
  - symmetry. apply delete_in_toggle_in.
  - apply delete_in_toggle_in.
  - apply delete_in_delete_in.
Qed.

Lemma resume_on_confirm p q s :
  independent p q = true →
  resume p (error_reply None) s = Some (setTasks (on_confirm p (tasks s)) s) ∧
  resume q (error_reply None) s = Some (setTasks (on_confirm q (tasks s)) s).
Proof. destruct p, q; simpl; done. Qed.

(** X10. The confirmations of two pending calls that are toggles or
    deletes can arrive in either order with the same result, the whole
    state included; the exception is two toggles of the same identifier to
    different values, where the one confirmed last decides. *)
Theorem confirmations_commute
    (s : AppState) (i j : nat) (p q : Pending) :
  (i ≤ j)%nat →
  inflight s !! i = Some p →
  inflight s !! S j = Some q →
  independent p q = true →
  let ok := error_reply None in
  ∃ s',
    run s [settle i ok; settle j ok] = Some s' ∧
    run s [settle (S j) ok; settle i ok] = Some s' ∧
    tasks s' = on_confirm q (on_confirm p (tasks s)) ∧
    inflight s' = delete j (delete i (inflight s)).
Proof.
  intros Hij Hi Hj Hind ok.
  exists (setTasks (on_confirm q (on_confirm p (tasks s)))
            (set_inflight (delete j (delete i (inflight s))) s)).
  split; [| split; [| done]].
  - cbn [run]. rewrite step_settle, Hi. cbn [mbind option_bind].
    rewrite (proj1 (resume_on_confirm p q _ Hind)).
    cbn [mbind option_bind]. rewrite step_settle.
    change (inflight (setTasks _ (set_inflight ?l _))) with l.
    rewrite list_lookup_delete_ge, Hj by done. cbn [mbind option_bind].
    rewrite (proj2 (resume_on_confirm p q _ Hind)). reflexivity.
  - cbn [run]. rewrite step_settle, Hj. cbn [mbind option_bind].
    rewrite (proj2 (resume_on_confirm p q _ Hind)).
    cbn [mbind option_bind]. rewrite step_settle.
    change (inflight (setTasks _ (set_inflight ?l _))) with l.
    rewrite list_lookup_delete_lt, Hi by lia. cbn [mbind option_bind].
    rewrite (proj1 (resume_on_confirm p q _ Hind)). simpl.
    rewrite (on_confirm_commute p q _ Hind), (delete_delete_le _ i j Hij).
    reflexivity.
Qed.

Lemma confirmations_commute_witness :
  inflight (deleteTask 3 (toggleTask 1 false Sample.signed_in)) !! 0%nat
  = Some (toggleTask_await 1 false) ∧
  inflight (deleteTask 3 (toggleTask 1 false Sample.signed_in)) !! 1%nat
  = Some (deleteTask_await 3) ∧
  ∃ s',
    run (deleteTask 3 (toggleTask 1 false Sample.signed_in))
        [settle 0 (error_reply None); settle 0 (error_reply None)] = Some s' ∧
    run (deleteTask 3 (toggleTask 1 false Sample.signed_in))
        [settle 1 (error_reply None); settle 0 (error_reply None)] = Some s' ∧
    tasks s' = [Task.with_is_completed true Sample.tent].
Proof.
  split; [reflexivity |]. split; [reflexivity |].
  destruct (confirmations_commute
              (deleteTask 3 (toggleTask 1 false Sample.signed_in))
              0 0 (toggleTask_await 1 false) (deleteTask_await 3)
              ltac:(lia) eq_refl eq_refl eq_refl)
    as (s' & Hone & Hother & Htasks & _).
  exists s'. split; [exact Hone |]. split; [exact Hother | exact Htasks].
Defined.

(** ** Identifiers in the list stay unique *)

Lemma toggle_in_ids id b prev : Task.id <$> toggle_in id b prev = Task.id <$> prev.
Proof.
  unfold toggle_in. induction prev as [|t prev IH]; [done |].
  cbn [map fmap list_fmap] in *. rewrite IH. by destruct (decide _).
Qed.

Lemma delete_in_ids_NoDup id prev :
  NoDup (Task.id <$> prev) → NoDup (Task.id <$> delete_in id prev).
Proof.
  intros Hnd. eapply sublist_NoDup; [exact Hnd |].
  apply fmap_sublist, delete_in_sublist.
Qed.

Lemma setSession_tasks v s :
  tasks (setSession v s) = tasks s ∨ tasks (setSession v s) = [].
Proof.
  unfold setSession, session_effect. destruct (Object_is _ _); [by left |].
  simpl. destruct (truthy_user_id v); [by left | by right].
Qed.

(** X11. The identifiers of the listed tasks, which the list items use
    as their keys, stay pairwise distinct through every turn of the event
    loop, as long as the store does its part: the rows of a fetch carry
    distinct identifiers and the row of an insert an identifier no listed
    task has.  Toggle, delete, failed calls, typing, sign-in, sign-out and
    session changes never break it on their own. *)
Theorem ids_stay_unique (s : AppState) (e : Event) (s' : AppState) :
  step s e = Some s' →
  NoDup (Task.id <$> tasks s) →
  (∀ n r p, e = settle n r → inflight s !! n = Some p →
            keeps_ids_unique s p r) →
  NoDup (Task.id <$> tasks s').
Proof.
  intros Hstep Hnd Hstore. destruct e;
    try (unfold step, render in Hstep; repeat case_match;
         simplify_option_eq; exact Hnd).
  - rewrite step_onAuthStateChange in Hstep. injection Hstep as <-.
    destruct (setSession_tasks session0 s) as [-> | ->];
      [done | constructor].
  - unfold step, render, addTask in Hstep. repeat case_match;
      simplify_option_eq; exact Hnd.
  - rewrite step_settle in Hstep.
    destruct (inflight s !! n) as [p|] eqn:Hn; [| done].
    cbn [mbind option_bind] in Hstep.
    specialize (Hstore n r p eq_refl Hn).
    set (s0 := set_inflight (delete n (inflight s)) s) in *.
    destruct r as [v verr|[err|]|[rows|] [err|]|[d|] [err|]|reason], p;
      simpl in Hstep; try discriminate Hstep; injection Hstep as <-;
      simpl; try exact Hnd; try constructor.
    + destruct (setSession_tasks v s0) as [-> | ->]; [done | constructor].
    + by rewrite toggle_in_ids.
    + by apply delete_in_ids_NoDup.
    + exact Hstore.
    + exact Hstore.
    + exact Hnd.
Qed.

Lemma ids_stay_unique_witness :
  step (deleteTask 1 Sample.signed_in) (settle 0 (error_reply None))
  = Some (setTasks [Sample.wood] Sample.signed_in) ∧
  NoDup (Task.id <$> tasks (deleteTask 1 Sample.signed_in)) ∧
  NoDup (Task.id <$> tasks (setTasks [Sample.wood] Sample.signed_in)).
Proof.
  assert (Hnd : NoDup (Task.id <$> tasks (deleteTask 1 Sample.signed_in))).
  { apply (bool_decide_unpack _). reflexivity. }
  split; [reflexivity |]. split; [exact Hnd |].
  apply (ids_stay_unique (deleteTask 1 Sample.signed_in)
           (settle 0 (error_reply None))
           (setTasks [Sample.wood] Sample.signed_in) eq_refl Hnd).
  intros n r p [= <- <-] Hp. injection Hp as <-. exact I.
Defined.

(** ** The buttons (lines 197-203 and 223-230) *)

(** X12. The label of an item's toggle button says what pressing it
    asks for: the request sets [is_completed] to true exactly when the
    button reads Complete, and to false when it reads Undo.  Once the
    store has confirmed, the same item shows the other label, its title is
    struck through exactly when the button had read Complete, and its key
    and text are the same. *)
Theorem toggle_button_does_what_it_says
    (s : AppState) (i : nat) (t : Task.t) :
  session s ≠ None →
  tasks s !! i = Some t →
  let wanted := bool_decide (toggle_label (render_item t) = "Complete"%string) in
  ∃ p s1 t1,
    step s (click_toggleTask i) = Some (await p s) ∧
    request_of p
    = from "tasks" (Query.update [("is_completed", VBool wanted)]
                                 [("id", VNum (Task.id t))]) ∧
    step (await p s) (settle (length (inflight s)) (error_reply None))
    = Some s1 ∧
    tasks s1 !! i = Some t1 ∧
    toggle_label (render_item t1) ≠ toggle_label (render_item t) ∧
    line_through (render_item t1) = wanted ∧
    key (render_item t1) = key (render_item t) ∧
    text (render_item t1) = text (render_item t).
Proof.
  intros Hin Hi wanted.
  exists (toggleTask_await (Task.id t) (Task.is_completed t)),
         (setTasks (toggle_in (Task.id t) (Task.is_completed t) (tasks s)) s),
         (Task.with_is_completed (negb (Task.is_completed t)) t).
  split; [exact (click_toggleTask_calls s i t Hin Hi) |].
  split; [subst wanted; simpl; by destruct (Task.is_completed t) |].
  split; [by rewrite settle_last |].
  split.
  { simpl. rewrite toggle_in_lookup, Hi. simpl. by rewrite decide_True. }
  subst wanted. simpl. by destruct (Task.is_completed t).
Qed.

Lemma toggle_button_does_what_it_says_witness :
  session Sample.signed_in ≠ None ∧
  tasks Sample.signed_in !! 0%nat = Some Sample.wood ∧
  toggle_label (render_item Sample.wood) = "Undo"%string ∧
  ∃ p, step Sample.signed_in (click_toggleTask 0)
       = Some (await p Sample.signed_in) ∧
       request_of p
       = from "tasks" (Query.update [("is_completed", VBool false)]
                                    [("id", VNum 3)]).
Proof.
  split; [discriminate |]. split; [reflexivity |]. split; [reflexivity |].
  destruct (toggle_button_does_what_it_says Sample.signed_in 0 Sample.wood
              ltac:(discriminate) eq_refl)
    as (p & _ & _ & Hclick & Hreq & _).
  exists p. split; [exact Hclick | exact Hreq].
Defined.

(** X13. The Add button can be pressed exactly when the task screen is
    shown and the input holds something other than white space.  A press
    then sends one insert, of the trimmed text for the session's user; if
    the session carries no user identifier, the press does nothing at
    all.  So from the screen the blank-title return of [addTask] is never
    taken. *)
Theorem add_button (s : AppState) :
  (step s click_addTask = None ↔
   session s = None ∨ forallb JsString.is_white_space (newTask s) = true) ∧
  ∀ s', step s click_addTask = Some s' →
        JsString.trim (newTask s) ≠ [] ∧
        match truthy_user_id (session s) with
        | Some userId =>
            s' = await (addTask_await (JsString.trim (newTask s)) userId) s
        | None => s' = s
        end.
Proof.
  split.
  - rewrite <- trim_nil_iff. unfold step, render.
    destruct (session s) as [se|]; [| by split; [left |]].
    destruct (JsString.trim (newTask s)) eqn:Ht; simpl.
    + split; [by right | done].
    + split; [done | by intros [|]].
  - intros s' Hstep.
    assert (Hin : session s ≠ None).
    { intros Hnone. unfold step, render in Hstep. by rewrite Hnone in Hstep. }
    assert (Ht : JsString.trim (newTask s) ≠ []).
    { intros Hnil. unfold step, render in Hstep. rewrite Hnil in Hstep.
      by destruct (session s). }
    rewrite (click_addTask_calls s Hin Ht) in Hstep. injection Hstep as <-.
    split; [exact Ht |].
    destruct (truthy_user_id (session s)) as [userId|] eqn:Hu.
    + by apply addTask_sends.
    + unfold addTask. rewrite Hu. by destruct (negb _).
Qed.

Lemma add_button_witness :
  step (Sample.typing (js " boil water ")) click_addTask
  = Some (addTask (Sample.typing (js " boil water "))) ∧
  addTask (Sample.typing (js " boil water "))
  = await (addTask_await (js "boil water") (js "A"))
          (Sample.typing (js " boil water ")).
Proof.
  split; [reflexivity |].
  exact (proj2 (proj2 (add_button (Sample.typing (js " boil water ")))
                  (addTask (Sample.typing (js " boil water "))) eq_refl)).
Defined.
